(** * Job_Scrapper: the crawl / extract / classify / dedup core of [scrapper.py]

    A shallow embedding of [JobScraper] (src/scrapper.py) and the properties
    its specification states about it, followed by [check_jobs] and
    [send_alert_email] of the application (src/app.py) and further
    properties of both.

    Conventions of the embedding.
    - A Python [str] is a [string] of ASCII characters; [str.lower],
      [str.strip], [len], slicing and [in] are written out below for such
      text.  The two literals of app.py that hold an emoji are the bytes of
      their UTF-8 form; they are concatenated only.
    - A Python [dict] used as a map is a [gmap]; [self.seen_jobs] maps a
      fingerprint to the posting stored under it.
    - A function that may raise returns in [exn + A]; the state that the
      methods read and write (the attribute [self.seen_jobs], the file
      system, the clock, and the local list [jobs] of an adapter) is passed
      explicitly, and what was written before an exception stays written. *)

From Stdlib Require Import ZArith Ascii.
From stdpp Require Import gmap strings list fin_maps finite.
From stdpp Require Import pretty.

Set Warnings "-register-all".
Local Open Scope Z_scope.
Local Open Scope nat_scope.

(** ** Python strings *)

Module Str.

(** [c.lower()] for one ASCII character. *)
Definition lower_ascii (c : ascii) : ascii :=
  let n := nat_of_ascii c in
  if (65 <=? n) && (n <=? 90) then ascii_of_nat (n + 32) else c.

(** [s.lower()] *)
Fixpoint lower (s : string) : string :=
  match s with
  | EmptyString => EmptyString
  | String c s' => String (lower_ascii c) (lower s')
  end.

(** [s.startswith(p)] *)
Fixpoint startswith (p s : string) : bool :=
  match p, s with
  | EmptyString, _ => true
  | String _ _, EmptyString => false
  | String a p', String b s' => if Ascii.eqb a b then startswith p' s' else false
  end.

(** [sub in s], the substring test of Python's [in] on strings. *)
Fixpoint contains (sub s : string) : bool :=
  startswith sub s ||
  match s with
  | EmptyString => false
  | String _ s' => contains sub s'
  end.

(** [s[:n]] *)
Fixpoint take (n : nat) (s : string) : string :=
  match n, s with
  | O, _ => EmptyString
  | S _, EmptyString => EmptyString
  | S n', String c s' => String c (take n' s')
  end.

(** Characters [str.strip()] removes: the ASCII characters for which
    [str.isspace] holds (tab to carriage return, the four separators
    0x1c to 0x1f, and the space). *)
Definition isspace (c : ascii) : bool :=
  let n := nat_of_ascii c in
  ((9 <=? n) && (n <=? 13)) || ((28 <=? n) && (n <=? 31)) || (n =? 32).

(** [s.lstrip()] *)
Fixpoint lstrip (s : string) : string :=
  match s with
  | EmptyString => EmptyString
  | String c s' => if isspace c then lstrip s' else s
  end.

(** [s.rstrip()] *)
Fixpoint rstrip (s : string) : string :=
  match s with
  | EmptyString => EmptyString
  | String c s' =>
      match rstrip s' with
      | EmptyString => if isspace c then EmptyString else String c EmptyString
      | r => String c r
      end
  end.

(** [s.strip()] *)
Definition strip (s : string) : string := rstrip (lstrip s).

(** Truth value of a string in a condition: [if s:]. *)
Definition truthy (s : string) : bool :=
  match s with EmptyString => false | String _ _ => true end.

(** Whether [lo <= c <= hi]. *)
Definition between (lo hi : nat) (c : ascii) : bool :=
  (lo <=? nat_of_ascii c) && (nat_of_ascii c <=? hi).

(** Whether a sequence of bytes is UTF-8 (RFC 3629), that is whether
    [bytes.decode('utf-8')] returns. *)
Fixpoint utf8 (s : string) : bool :=
  match s with
  | EmptyString => true
  | String c0 s1 =>
      if between 0 127 c0 then utf8 s1
      else
        match s1 with
        | EmptyString => false
        | String c1 s2 =>
            if between 194 223 c0 then between 128 191 c1 && utf8 s2
            else
              match s2 with
              | EmptyString => false
              | String c2 s3 =>
                  if between 224 239 c0 then
                    (if between 224 224 c0 then between 160 191 c1
                     else if between 237 237 c0 then between 128 159 c1
                     else between 128 191 c1) &&
                    between 128 191 c2 && utf8 s3
                  else
                    match s3 with
                    | EmptyString => false
                    | String c3 s4 =>
                        between 240 244 c0 &&
                        (if between 240 240 c0 then between 144 191 c1
                         else if between 244 244 c0 then between 128 143 c1
                         else between 128 191 c1) &&
                        between 128 191 c2 && between 128 191 c3 && utf8 s4
                    end
              end
        end
  end.

(** The relation that [contains] decides. *)
Definition substring_of (sub s : string) : Prop :=
  exists pre post : string, s = pre +:+ sub +:+ post.

End Str.

(** [any(p(x) for x in l)] *)
Definition any {A : Type} (p : A -> bool) (l : list A) : bool := existsb p l.

(** ** The relevance classifier *)

Definition keywords : list string :=
  [ "backend"; "back-end"; "java"; "python"; "go"; "golang";
    "node"; "nodejs"; "spring"; "django"; "flask"; "api";
    "microservice"; "database"; "sql"; "nosql"; "aws";
    "azure"; "gcp"; "cloud"; "distributed"; "server";
    "software engineer"; "developer" ].

Definition internship_terms : list string :=
  [ "intern"; "internship"; "university graduate"; "new grad"; "student" ].

Definition is_backend_internship (job_title : string) : bool :=
  let text := Str.lower job_title in
  let has_internship := any (fun term => Str.contains term text) internship_terms in
  let has_backend := any (fun term => Str.contains term text) keywords in
  has_internship && has_backend.

(** The two term sets as the specification lists them (section 4.3). *)
Definition spec_internship_terms : list string :=
  [ "intern"; "internship"; "university graduate"; "new grad"; "student" ].

Definition spec_topic_terms : list string :=
  [ "backend"; "back-end";
    "java"; "python"; "go"; "golang"; "node"; "spring"; "django"; "flask";
    "api"; "microservice"; "database"; "sql"; "nosql"; "aws"; "azure"; "gcp";
    "cloud"; "distributed"; "server";
    "software engineer"; "developer" ].

(** ** MD5 (RFC 1321), as [hashlib.md5] computes it

    32-bit words are integers in [0, 2^32) with the wrap-around written
    out. *)

Module MD5.
Local Open Scope Z_scope.

Definition add32 (x y : Z) : Z := (x + y) mod 2 ^ 32.
Definition not32 (x : Z) : Z := Z.lxor x 0xffffffff.
Definition rotl32 (x c : Z) : Z :=
  Z.lor (Z.shiftl x c mod 2 ^ 32) (Z.shiftr x (32 - c)).

Definition shifts : list Z :=
  [ 7; 12; 17; 22; 7; 12; 17; 22; 7; 12; 17; 22; 7; 12; 17; 22;
    5;  9; 14; 20; 5;  9; 14; 20; 5;  9; 14; 20; 5;  9; 14; 20;
    4; 11; 16; 23; 4; 11; 16; 23; 4; 11; 16; 23; 4; 11; 16; 23;
    6; 10; 15; 21; 6; 10; 15; 21; 6; 10; 15; 21; 6; 10; 15; 21 ].

Definition sines : list Z :=
  [ 0xd76aa478; 0xe8c7b756; 0x242070db; 0xc1bdceee;
    0xf57c0faf; 0x4787c62a; 0xa8304613; 0xfd469501;
    0x698098d8; 0x8b44f7af; 0xffff5bb1; 0x895cd7be;
    0x6b901122; 0xfd987193; 0xa679438e; 0x49b40821;
    0xf61e2562; 0xc040b340; 0x265e5a51; 0xe9b6c7aa;
    0xd62f105d; 0x02441453; 0xd8a1e681; 0xe7d3fbc8;
    0x21e1cde6; 0xc33707d6; 0xf4d50d87; 0x455a14ed;
    0xa9e3e905; 0xfcefa3f8; 0x676f02d9; 0x8d2a4c8a;
    0xfffa3942; 0x8771f681; 0x6d9d6122; 0xfde5380c;
    0xa4beea44; 0x4bdecfa9; 0xf6bb4b60; 0xbebfbc70;
    0x289b7ec6; 0xeaa127fa; 0xd4ef3085; 0x04881d05;
    0xd9d4d039; 0xe6db99e5; 0x1fa27cf8; 0xc4ac5665;
    0xf4292244; 0x432aff97; 0xab9423a7; 0xfc93a039;
    0x655b59c3; 0x8f0ccc92; 0xffeff47d; 0x85845dd1;
    0x6fa87e4f; 0xfe2ce6e0; 0xa3014314; 0x4e0811a1;
    0xf7537e82; 0xbd3af235; 0x2ad7d2bb; 0xeb86d391 ].

(** The message as bytes ([str.encode()] of ASCII text). *)
Definition encode (s : string) : list Z :=
  map (fun c => Z.of_nat (nat_of_ascii c)) (String.list_ascii_of_string s).

(** [n] as [k] little-endian bytes. *)
Fixpoint le_bytes (k : nat) (n : Z) : list Z :=
  match k with
  | O => []
  | S k' => n mod 256 :: le_bytes k' (n / 256)
  end.

(** A one bit, zeros up to 56 modulo 64, and the bit length on 64 bits. *)
Definition pad (msg : list Z) : list Z :=
  let len := Z.of_nat (length msg) in
  msg ++ [0x80] ++ repeat 0 (Z.to_nat ((55 - len) mod 64))
      ++ le_bytes 8 ((8 * len) mod 2 ^ 64).

Fixpoint le_word (bs : list Z) : Z :=
  match bs with
  | [] => 0
  | b :: bs' => b + 256 * le_word bs'
  end.

(** The sixteen 32-bit words of a 64-byte block. *)
Definition words (block : list Z) : list Z :=
  map (fun i => le_word (take 4 (drop (4 * i) block))) (seq 0 16).

Fixpoint blocks (n : nat) (bs : list Z) : list (list Z) :=
  match n with
  | O => []
  | S n' => take 64 bs :: blocks n' (drop 64 bs)
  end.

Definition regs : Type := Z * Z * Z * Z.

Definition step (m : list Z) (r : regs) (i : nat) : regs :=
  let '(a, b, c, d) := r in
  let '(f, g) :=
    if (i <? 16)%nat then (Z.lor (Z.land b c) (Z.land (not32 b) d), i)
    else if (i <? 32)%nat then (Z.lor (Z.land d b) (Z.land (not32 d) c), (5 * i + 1) mod 16)%nat
    else if (i <? 48)%nat then (Z.lxor (Z.lxor b c) d, (3 * i + 5) mod 16)%nat
    else (Z.lxor c (Z.lor b (not32 d)), (7 * i) mod 16)%nat in
  let f' := add32 (add32 (add32 f a) (nth i sines 0)) (nth g m 0) in
  (d, add32 b (rotl32 f' (nth i shifts 0)), b, c).

Definition compress (r : regs) (block : list Z) : regs :=
  let '(a0, b0, c0, d0) := r in
  let '(a, b, c, d) := fold_left (step (words block)) (seq 0 64) r in
  (add32 a0 a, add32 b0 b, add32 c0 c, add32 d0 d).

Definition init : regs := (0x67452301, 0xefcdab89, 0x98badcfe, 0x10325476).

Definition digest (msg : list Z) : list Z :=
  let p := pad msg in
  let '(a, b, c, d) := fold_left compress (blocks (length p / 64) p) init in
  le_bytes 4 a ++ le_bytes 4 b ++ le_bytes 4 c ++ le_bytes 4 d.

Definition hex_digit (n : Z) : ascii :=
  if n <? 10 then ascii_of_nat (Z.to_nat (48 + n)) else ascii_of_nat (Z.to_nat (87 + n)).

Fixpoint hex (bs : list Z) : string :=
  match bs with
  | [] => EmptyString
  | b :: bs' => String (hex_digit (b / 16)) (String (hex_digit (b mod 16)) (hex bs'))
  end.

(** [hashlib.md5(data).hexdigest()] *)
Definition hexdigest (s : string) : string := hex (digest (encode s)).
End MD5.

(** ** Data model *)

(** An entry of [self.companies]. *)
Record Company := {
  name : string;
  base_url : string;
  search_url : string;
  type : string;
}.

(** A posting, the dict built by the adapters. *)
Record Job := {
  company : string;
  title : string;
  url : string;
  location : string;
  date_found : string;
}.

(** The identifying tuple of a posting. *)
Definition identity (job : Job) : string * string * string :=
  (company job, title job, url job).

(** ** The fingerprint *)

Definition job_string (job : Job) : string :=
  company job +:+ "-" +:+ title job +:+ "-" +:+ url job.

Definition get_job_id (job : Job) : string :=
  MD5.hexdigest (job_string job).

(** ** The digests as a finite set *)

(** Every character. *)
Definition all_ascii : list ascii := map ascii_of_nat (seq 0 256).

(** Every string of [n] characters. *)
Fixpoint all_strings (n : nat) : list string :=
  match n with
  | O => [EmptyString]
  | S n' => flat_map (fun c => map (String c) (all_strings n')) all_ascii
  end.

(** [n] copies of a character. *)
Fixpoint copies (n : nat) (c : ascii) : string :=
  match n with
  | O => EmptyString
  | S n' => String c (copies n' c)
  end.

(** A family of postings without hyphens in company and title, one for each
    number. *)
Definition numbered (n : nat) : Job :=
  {| company := "Acme";
     title := "Backend Intern";
     url := "https://acme.example/jobs/" +:+ copies n "x";
     location := "US";
     date_found := "2024-05-01T09:00:00" |}.

(** ** Parsed documents (the part of BeautifulSoup the adapters use) *)

Inductive node :=
| NavigableString (text : string)
| Tag (tag_name : string) (attrs : gmap string string) (contents : list node).

Module bs4.

(** Everything below a node, in document order. *)
Fixpoint descendants (n : node) : list node :=
  match n with
  | NavigableString _ => []
  | Tag _ _ cs =>
      (fix over (l : list node) : list node :=
         match l with
         | [] => []
         | c :: l' => c :: descendants c ++ over l'
         end) cs
  end.

(** [n.get_text()]: the strings below [n], concatenated. *)
Fixpoint get_text (n : node) : string :=
  match n with
  | NavigableString s => s
  | Tag _ _ cs =>
      (fix over (l : list node) : string :=
         match l with
         | [] => EmptyString
         | c :: l' => get_text c +:+ over l'
         end) cs
  end.

(** [n.get(key, dflt)] *)
Definition get (n : node) (key dflt : string) : string :=
  match n with
  | NavigableString _ => dflt
  | Tag _ a _ => default dflt (a !! key)
  end.

(** A search criterion: the tag names looked for, and a test on the
    attributes. *)
Definition matches (names : list string) (test : gmap string string -> bool)
    (n : node) : bool :=
  match n with
  | NavigableString _ => false
  | Tag nm a _ => existsb (String.eqb nm) names && test a
  end.

(** [n.find_all(names, ...)] *)
Definition find_all (names : list string) (test : gmap string string -> bool)
    (n : node) : list node :=
  List.filter (matches names test) (descendants n).

(** [n.find(names, ...)]: the first match, or [None]. *)
Definition find (names : list string) (test : gmap string string -> bool)
    (n : node) : option node :=
  head (find_all names test n).

(** The criterion [href=True]: the attribute is present. *)
Definition href_True (a : gmap string string) : bool :=
  match a !! "href" with Some _ => true | None => false end.

(** The criterion [class_=f] for a function [f].  BeautifulSoup calls [f]
    on [None] when the tag has no [class], and otherwise on each
    whitespace-separated token of the attribute and on the tokens joined by
    a space.  Both functions the adapters pass test whether a word without
    white space occurs in their argument, which holds of a token or of the
    joined tokens exactly when it holds of the attribute's text; so [f] is
    applied to that text. *)
Definition class_ (f : option string -> bool) (a : gmap string string) : bool :=
  f (a !! "class").

End bs4.

(** [lambda x: x and ('job' in x.lower() or 'card' in x.lower())] *)
Definition job_or_card (x : option string) : bool :=
  match x with
  | None => false
  | Some x =>
      Str.truthy x &&
      (Str.contains "job" (Str.lower x) || Str.contains "card" (Str.lower x))
  end.

(** [lambda x: x and ('title' in x.lower() if x else False)] *)
Definition title_class (x : option string) : bool :=
  match x with
  | None => false
  | Some x =>
      Str.truthy x &&
      (if Str.truthy x then Str.contains "title" (Str.lower x) else false)
  end.

(** ** Interpreter state, exceptions and the monad of methods *)

(** The exceptions the modelled calls raise; all are subclasses of
    [Exception]. *)
Inductive exn :=
| FileNotFoundError
| PermissionError
| UnicodeDecodeError
| JSONDecodeError
| RecursionError
| ValueError
| ConnectionError
| Timeout
| ParserRejectedMarkup.

(** A path of the file system holds bytes, or refuses access. *)
Inductive File := Denied | Contents (bytes : string).

(** The attributes of a [JobScraper] that are assigned once, in
    [__init__]. *)
Record JobScraper := {
  seen_file : string;
  companies : list Company;
}.

(** What the methods read and write: the attribute [self.seen_jobs], the file
    system, and the number of times the clock has been read. *)
Record State := {
  seen_jobs : gmap string Job;
  files : gmap string File;
  ticks : nat;
}.

Definition set_seen_jobs (m : gmap string Job) (s : State) : State :=
  {| seen_jobs := m; files := files s; ticks := ticks s |}.

Definition set_files (fs : gmap string File) (s : State) : State :=
  {| seen_jobs := seen_jobs s; files := fs; ticks := ticks s |}.

Definition set_ticks (t : nat) (s : State) : State :=
  {| seen_jobs := seen_jobs s; files := files s; ticks := t |}.

(** What the body of an adapter reads and writes: its local list [jobs] and
    the number of times the clock has been read. *)
Definition Locals : Type := list Job * nat.

(** A computation on a state [S] that returns or raises; the state it leaves
    is kept in both cases. *)
Definition Eff (S A : Type) : Type := S -> (exn + A) * S.

(** The methods of [JobScraper]. *)
Definition M (A : Type) : Type := Eff State A.

Definition ret {S A} (x : A) : Eff S A := fun s => (inr x, s).

Definition raise {S A} (e : exn) : Eff S A := fun s => (inl e, s).

Definition bind {S A B} (c : Eff S A) (k : A -> Eff S B) : Eff S B :=
  fun s =>
    match c s with
    | (inl e, s') => (inl e, s')
    | (inr x, s') => k x s'
    end.

(** [try: body  except ...: handler]; a handler re-raises what it does not
    catch. *)
Definition try_except {S A} (body : Eff S A) (handler : exn -> Eff S A) : Eff S A :=
  fun s =>
    match body s with
    | (inl e, s') => handler e s'
    | (inr x, s') => (inr x, s')
    end.

Notation "'let*' x ':=' c1 'in' c2" := (bind c1 (fun x => c2))
  (at level 10, x name, c1 at level 100, c2 at level 200).

(** [jobs = init; body; return jobs]: the body of an adapter runs on its
    local list and on the clock, and the method returns the list as the body
    leaves it. *)
Definition returning_jobs (init : list Job) (body : Eff Locals unit) : M (list Job) :=
  fun s =>
    match body (init, ticks s) with
    | (inl e, (_, t)) => (inl e, set_ticks t s)
    | (inr _, (jobs, t)) => (inr jobs, set_ticks t s)
    end.

(** [time.sleep(random.uniform(3, 6))]; no modelled state depends on it. *)
Definition sleep {S} : Eff S unit := ret tt.

(** ** Answers to requests *)

Module requests.

(** A [requests.Response]: the status of the answer and its body as text.
    [requests.get] returns the answer whatever its status; the adapters read
    [response.text] and nothing else. *)
Record Response := {
  status_code : nat;
  text : string;
}.

End requests.

(** ** The application (app.py) *)

Module app.

(** The dict [last_results]. *)
Record Results := {
  jobs : list Job;
  last_check : option string;
  total_found : nat;
}.

(** A [flask_mail.Message]. *)
Record Message := {
  subject : string;
  recipients : list string;
  body : string;
}.

(** What [check_jobs] reads and writes: the state of the object [scraper],
    the global [last_results], and the messages the mail server has
    accepted. *)
Record App := {
  scraper_state : State;
  last_results : Results;
  outbox : list Message;
}.

Definition set_scraper_state (s : State) (a : App) : App :=
  {| scraper_state := s; last_results := last_results a; outbox := outbox a |}.

Definition set_last_results (r : Results) (a : App) : App :=
  {| scraper_state := scraper_state a; last_results := r; outbox := outbox a |}.

Definition set_outbox (o : list Message) (a : App) : App :=
  {| scraper_state := scraper_state a; last_results := last_results a; outbox := o |}.

(** [last_results] as the module assigns it. *)
Definition initial_results : Results :=
  {| jobs := []; last_check := None; total_found := 0 |}.

End app.

(** [str(n)] for a natural number. *)
Definition str (n : nat) : string := pretty n.

(** The line feed. *)
Definition newline : string := String "010" EmptyString.

(** ** A concrete world

    Pages, a network and a clock on which the definitions can be run; the
    closed examples at the end of the file are stated on them. *)

Module Demo.

(** [urljoin] on the references of the pages below.  The base is a bare
    origin: a reference that starts with a slash is appended to it, and one
    that is a path without a scheme is appended after a slash.  The reference
    [//[] opens the bracket of an IPv6 address in its authority and does not
    close it: on such a reference [urljoin] raises [ValueError]. *)
Definition urljoin (base href : string) : exn + string :=
  if Str.startswith "//[" href then inl ValueError
  else if Str.startswith "/" href then inr (base +:+ href)
  else inr (base +:+ "/" +:+ href).

Definition google : Company :=
  {| name := "Google";
     base_url := "https://careers.google.com";
     search_url := "https://careers.google.com/jobs/results/";
     type := "google" |}.

Definition microsoft : Company :=
  {| name := "Microsoft";
     base_url := "https://careers.microsoft.com";
     search_url := "https://careers.microsoft.com/v2/global/en/jobs";
     type := "microsoft" |}.

Definition amazon : Company :=
  {| name := "Amazon";
     base_url := "https://amazon.jobs";
     search_url := "https://amazon.jobs/en/search";
     type := "amazon" |}.

(** A second source of type [google], whose page has no containers. *)
Definition google_flat : Company :=
  {| name := "Google";
     base_url := "https://careers.google.com";
     search_url := "https://careers.google.com/jobs/flat/";
     type := "google" |}.

(** A source whose server does not answer. *)
Definition acme : Company :=
  {| name := "Acme";
     base_url := "https://acme.example";
     search_url := "https://acme.example/careers";
     type := "acme" |}.

(** A source whose page the parser rejects. *)
Definition initech : Company :=
  {| name := "Initech";
     base_url := "https://initech.example";
     search_url := "https://initech.example/careers";
     type := "microsoft" |}.

(** A source whose page has anchors without [href] before its links. *)
Definition globex : Company :=
  {| name := "Globex";
     base_url := "https://globex.example";
     search_url := "https://globex.example/careers";
     type := "generic" |}.

(** A source whose page has a link that cannot be split. *)
Definition hooli : Company :=
  {| name := "Hooli";
     base_url := "https://hooli.example";
     search_url := "https://hooli.example/careers";
     type := "generic" |}.

(** A source whose server answers with the status 404 and a page of its
    own. *)
Definition vanished : Company :=
  {| name := "Vanished";
     base_url := "https://vanished.example";
     search_url := "https://vanished.example/careers/2023";
     type := "generic" |}.

Definition document (contents : list node) : node := Tag "[document]" ∅ contents.

Definition a (href text : string) : node :=
  Tag "a" {[ "href" := href ]} [NavigableString text].

(** The page of [amazon]: three links. *)
Definition amazon_page : node :=
  document
    [ Tag "ul" ∅
        [ Tag "li" ∅ [a "/jobs/42" "  Backend Engineering Intern "];
          Tag "li" ∅ [a "/jobs/43" "Senior Software Engineer"];
          Tag "li" ∅ [a "https://amazon.jobs/jobs/44" "New Grad Cloud Developer"] ] ].

(** A title of 120 characters. *)
Definition long_title : string :=
  "Software Engineering Intern, Backend Infrastructure and Distributed Storage Systems, Summer 2025 (Mountain View, Calif.)".

(** The page of [google]: one container with a title element and a link. *)
Definition google_page : node :=
  document
    [ Tag "div" {[ "class" := "job-card" ]}
        [ Tag "h3" {[ "class" := "card-title" ]} [NavigableString long_title];
          a "/jobs/results/1" "Learn more" ] ].

(** A page of [google] without containers: twelve relevant links. *)
Definition google_flat_page : node :=
  document
    (map (fun k => a ("/jobs/results/" +:+ k) ("Backend Intern " +:+ k))
       [ "a"; "b"; "c"; "d"; "e"; "f"; "g"; "h"; "i"; "j"; "k"; "l" ]).

(** The page of [microsoft]: two cards, the second not an internship. *)
Definition microsoft_page : node :=
  document
    [ Tag "article" {[ "class" := "ms-Card" ]} [a "/job/7" "Python Developer Intern"];
      Tag "article" {[ "class" := "ms-Card" ]} [a "/job/8" "Principal Program Manager"] ].

(** An anchor without [href]. *)
Definition placeholder : node :=
  Tag "a" {[ "name" := "top" ]} [NavigableString "Software Engineering Internships"].

(** The page of [globex]: thirty anchors without [href], then two links, the
    second with a relative path that starts with the letters [http]. *)
Definition globex_page : node :=
  document
    (replicate 30 placeholder ++
     [ a "/jobs/1" "Backend Engineering Intern";
       a "httpd/intern.html" "Server Software Internship" ]).

(** The page of [hooli]: three links, the second with a reference on which
    [urljoin] raises. *)
Definition hooli_page : node :=
  document
    [ a "/careers/9" "Java Developer Internship";
      a "//[" "Cloud Engineering Intern";
      a "/careers/11" "Golang Backend Intern" ].

(** The page the server of [vanished] sends with the status 404: a notice
    and a link to another part of the site. *)
Definition vanished_page : node :=
  document
    [ Tag "h1" ∅ [NavigableString "404 Not Found"];
      a "/students" "Internships for Software Developers" ].

Definition globex_html : string := "<a name='top'>...</a>...<a href='/jobs/1'>...</a>...".
Definition hooli_html : string := "<a href='/careers/9'>...</a><a href='//['>...</a>...".

Definition amazon_html : string := "<ul><li><a href='/jobs/42'>...</a></li>...</ul>".
Definition google_html : string := "<div class='job-card'><h3 class='card-title'>...</h3>...</div>".
Definition microsoft_html : string := "<article class='ms-Card'>...</article>...".
Definition rejected_html : string := "<![".
Definition vanished_html : string := "<h1>404 Not Found</h1><a href='/students'>...</a>".

Definition google_flat_html : string := "<a href='/jobs/results/a'>...</a>...".

Definition BeautifulSoup (text : string) : exn + node :=
  if String.eqb text amazon_html then inr amazon_page
  else if String.eqb text google_html then inr google_page
  else if String.eqb text google_flat_html then inr google_flat_page
  else if String.eqb text globex_html then inr globex_page
  else if String.eqb text hooli_html then inr hooli_page
  else if String.eqb text microsoft_html then inr microsoft_page
  else if String.eqb text vanished_html then inr vanished_page
  else if String.eqb text rejected_html then inl ParserRejectedMarkup
  else inr (document [NavigableString text]).

(** An answer with the status 200. *)
Definition ok (body : string) : exn + requests.Response :=
  inr {| requests.status_code := 200; requests.text := body |}.

Definition http (url : string) : exn + requests.Response :=
  if String.eqb url (search_url amazon) then ok amazon_html
  else if String.eqb url (search_url google) then ok google_html
  else if String.eqb url (search_url google_flat) then ok google_flat_html
  else if String.eqb url (search_url globex) then ok globex_html
  else if String.eqb url (search_url hooli) then ok hooli_html
  else if String.eqb url (search_url microsoft) then ok microsoft_html
  else if String.eqb url (search_url initech) then ok rejected_html
  else if String.eqb url (search_url vanished) then
    inr {| requests.status_code := 404; requests.text := vanished_html |}
  else inl ConnectionError.

Definition digit (n : nat) : string :=
  String (ascii_of_nat (48 + n mod 10)) EmptyString.

Definition clock (n : nat) : string :=
  "2024-05-01T09:00:" +:+ digit (n / 10) +:+ digit n.

Definition quoted (s : string) : string :=
  String (ascii_of_nat 34) s +:+ String (ascii_of_nat 34) EmptyString.

Definition member (key value : string) : string :=
  quoted key +:+ ": " +:+ value.

Fixpoint join (sep : string) (l : list string) : string :=
  match l with
  | [] => EmptyString
  | [x] => x
  | x :: l' => x +:+ sep +:+ join sep l'
  end.

(** A serializer for texts without characters to escape. *)
Definition json_dump (m : gmap string Job) : string :=
  "{" +:+
  join ", "
    (map (fun '(k, j) =>
            member k
              ("{" +:+
               join ", "
                 [ member "company" (quoted (company j));
                   member "title" (quoted (title j));
                   member "url" (quoted (url j));
                   member "location" (quoted (location j));
                   member "date_found" (quoted (date_found j)) ] +:+
               "}"))
       (map_to_list m)) +:+
  "}".

(** A decoder that knows the empty object and rejects every other text; the
    texts it is applied to below are not JSON. *)
Definition json_load (text : string) : exn + gmap string Job :=
  if String.eqb text "{}" then inr ∅ else inl JSONDecodeError.

(** The postings the pages above hold. *)
Definition backend_intern : Job :=
  {| company := "Amazon";
     title := "Backend Engineering Intern";
     url := "https://amazon.jobs/jobs/42";
     location := "US";
     date_found := "2024-05-01T09:00:00" |}.

Definition senior_engineer : Job :=
  {| company := "Amazon";
     title := "Senior Software Engineer";
     url := "https://amazon.jobs/jobs/43";
     location := "US";
     date_found := "2024-05-01T09:00:01" |}.

Definition cloud_developer : Job :=
  {| company := "Amazon";
     title := "New Grad Cloud Developer";
     url := "https://amazon.jobs/jobs/44";
     location := "US";
     date_found := "2024-05-01T09:00:02" |}.

Definition google_job : Job :=
  {| company := "Google";
     title := long_title;
     url := "https://careers.google.com/jobs/results/1";
     location := "US";
     date_found := "2024-05-01T09:00:00" |}.

Definition globex_intern : Job :=
  {| company := "Globex";
     title := "Backend Engineering Intern";
     url := "https://globex.example/jobs/1";
     location := "US";
     date_found := "2024-05-01T09:00:00" |}.

Definition globex_server : Job :=
  {| company := "Globex";
     title := "Server Software Internship";
     url := "httpd/intern.html";
     location := "US";
     date_found := "2024-05-01T09:00:01" |}.

Definition hooli_java : Job :=
  {| company := "Hooli";
     title := "Java Developer Internship";
     url := "https://hooli.example/careers/9";
     location := "US";
     date_found := "2024-05-01T09:00:00" |}.

Definition vanished_programs : Job :=
  {| company := "Vanished";
     title := "Internships for Software Developers";
     url := "https://vanished.example/students";
     location := "US";
     date_found := "2024-05-01T09:00:00" |}.

(** [backend_intern] as an earlier cycle found it. *)
Definition stored : Job :=
  {| company := "Amazon";
     title := "Backend Engineering Intern";
     url := "https://amazon.jobs/jobs/42";
     location := "US";
     date_found := "2024-04-01T08:30:00" |}.

(** Two postings whose joined strings coincide. *)
Definition rolls : Job :=
  {| company := "Rolls";
     title := "Royce-Backend Intern";
     url := "https://careers.example/jobs/7";
     location := "US";
     date_found := "2024-05-01T09:00:00" |}.

Definition rolls_royce : Job :=
  {| company := "Rolls-Royce";
     title := "Backend Intern";
     url := "https://careers.example/jobs/7";
     location := "US";
     date_found := "2024-05-01T09:00:00" |}.

Definition self : JobScraper :=
  {| seen_file := "seen_jobs.json"; companies := [google; microsoft; amazon] |}.

(** A first start: nothing seen, no file. *)
Definition s0 : State := {| seen_jobs := ∅; files := ∅; ticks := 0 |}.

(** A later start: one posting seen. *)
Definition s_seen : State :=
  {| seen_jobs := {[ get_job_id stored := stored ]}; files := ∅; ticks := 0 |}.

(** A state whose file holds the two bytes FF FE, which are not UTF-8. *)
Definition s_binary : State :=
  {| seen_jobs := ∅;
     files := {[ "seen_jobs.json" := Contents (String "255" (String "254" EmptyString)) ]};
     ticks := 0 |}.

(** A state whose file is not JSON. *)
Definition s_garbage : State :=
  {| seen_jobs := ∅;
     files := {[ "seen_jobs.json" := Contents "not json {" ]};
     ticks := 0 |}.

(** The posting the page of [microsoft] holds. *)
Definition python_intern : Job :=
  {| company := "Microsoft";
     title := "Python Developer Intern";
     url := "https://careers.microsoft.com/job/7";
     location := "US";
     date_found := "2024-05-01T09:00:00" |}.

(** A state whose file of the Seen-Set cannot be opened. *)
Definition s_denied : State :=
  {| seen_jobs := ∅; files := {[ "seen_jobs.json" := Denied ]}; ticks := 0 |}.

(** A decoder that reads back what [json_dump] writes for the Seen-Sets
    [known], and rejects every other text. *)
Definition json_load_among (known : list (gmap string Job)) (text : string)
    : exn + gmap string Job :=
  match List.find (fun m => String.eqb (json_dump m) text) known with
  | Some m => inr m
  | None => inl JSONDecodeError
  end.

(** A configured recipient, and a mail server that accepts every message. *)
Definition alert_email : exn + string := inr "alerts@example.com".

Definition mail_send (msg : app.Message) : exn + unit := inr tt.

(** The application at its start, on a first start of the scraper and on the
    state whose file cannot be opened. *)
Definition a0 : app.App :=
  {| app.scraper_state := s0;
     app.last_results := app.initial_results;
     app.outbox := [] |}.

Definition a_denied : app.App :=
  {| app.scraper_state := s_denied;
     app.last_results := app.initial_results;
     app.outbox := [] |}.

(** A mail server that refuses every message. *)
Definition mail_refused (msg : app.Message) : exn + unit := inl ConnectionError.

(** A posting as it is found when the clock has been read [t] times. *)
Definition found_at (t : nat) (job : Job) : Job :=
  {| company := company job;
     title := title job;
     url := url job;
     location := location job;
     date_found := clock t |}.

(** The postings of a first cycle over the sources of [self]. *)
Definition first_cycle : list Job :=
  [ google_job; found_at 1 python_intern; found_at 3 backend_intern;
    found_at 5 cloud_developer ].

End Demo.

Section Scraper.

(** Library functions and the outside world. *)

(** [urljoin(base, url)], or the exception it raises ([ValueError], on a
    reference that cannot be split). *)
Variable urljoin : string -> string -> exn + string.
(** [BeautifulSoup(text, 'html.parser')] *)
Variable BeautifulSoup : string -> exn + node.
(** [json.load] on the text of a file; a well-formed file holds an object of
    postings. *)
Variable json_load : string -> exn + gmap string Job.
(** [json.dump(_, indent=2)] *)
Variable json_dump : gmap string Job -> string.
(** [requests.get(url, headers=..., timeout=15)]: the answer of the server,
    of whatever status, or the exception the request raises (no connection,
    no answer in time). *)
Variable http : string -> exn + requests.Response.
(** The value of [datetime.now().isoformat()] at each read of the clock. *)
Variable clock : nat -> string.

Definition requests_get {S} (url : string) : Eff S requests.Response :=
  fun s => (http url, s).

Definition parse_html {S} (text : string) : Eff S node := fun s => (BeautifulSoup text, s).

(** *** Persistence of the Seen-Set *)

(** [open(path, 'r')] and reading the text; the encoding of the locale is
    UTF-8. *)
Definition open_r (path : string) : M string :=
  fun s =>
    match files s !! path with
    | None => (inl FileNotFoundError, s)
    | Some Denied => (inl PermissionError, s)
    | Some (Contents bytes) =>
        if Str.utf8 bytes then (inr bytes, s) else (inl UnicodeDecodeError, s)
    end.

(** [open(path, 'w')] and writing the text. *)
Definition open_w (path text : string) : M unit :=
  fun s =>
    match files s !! path with
    | Some Denied => (inl PermissionError, s)
    | _ => (inr tt, set_files (<[path := Contents text]> (files s)) s)
    end.

Definition load_seen_jobs (self : JobScraper) : M unit :=
  try_except
    (let* f := open_r (seen_file self) in
     match json_load f with
     | inr loaded => fun s => (inr tt, set_seen_jobs loaded s)
     | inl e => raise e
     end)
    (fun e =>
       match e with
       | FileNotFoundError => fun s => (inr tt, set_seen_jobs ∅ s)
       | JSONDecodeError => fun s => (inr tt, set_seen_jobs ∅ s)
       | _ => raise e
       end).

Definition save_seen_jobs (self : JobScraper) : M unit :=
  fun s => open_w (seen_file self) (json_dump (seen_jobs s)) s.

(** [JobScraper()] *)
Definition init : M JobScraper :=
  let seen_file := "seen_jobs.json" in
  let* _ := load_seen_jobs {| seen_file := seen_file; companies := [] |} in
  ret {| seen_file := seen_file;
         companies :=
           [ {| name := "Google";
                base_url := "https://careers.google.com";
                search_url := "https://careers.google.com/jobs/results/?degree=BACHELORS&employment_type=INTERN&category=SOFTWARE_ENGINEERING&company=Google&hl=en_US&jlo=en_US&location=United%20States&page=1&sort_by=date";
                type := "google" |};
             {| name := "Microsoft";
                base_url := "https://careers.microsoft.com";
                search_url := "https://careers.microsoft.com/v2/global/en/jobs?pg=1&pgSz=20&o=Relevance&l=en_us&s=Students%20and%20graduates&t=US%20Citizenship%20Requirement%3DNot%20Required%20-%20US%20Citizenship%3DNot%20Required&t=Employment%20Type%3DInternship&f=Internships";
                type := "microsoft" |};
             {| name := "Amazon";
                base_url := "https://amazon.jobs";
                search_url := "https://amazon.jobs/en/search?base_query=software+engineer+intern&offset=0&category=software-development&loc_query=United%20States&job_type=Internship&sort=recent";
                type := "amazon" |} ] |}.

(** *** Source adapters

    The adapters call the classifier as a method of [self]; it is a
    parameter here and is set to [is_backend_internship] below, so that what
    an adapter does with the classifier can be stated. *)
Section Adapters.

Variable relevant : string -> bool.

(** The loop over [all_links[:30]] of the fallback of [scrape_google];
    [jobs] is the list built so far and [t] the clock reads so far. *)
Fixpoint google_links (comp : Company) (links : list node)
    (jobs : list Job) (t : nat) : (exn + unit) * Locals :=
  match links with
  | [] => (inr tt, (jobs, t))
  | link :: rest =>
      let href := bs4.get link "href" "" in
      let text := Str.strip (bs4.get_text link) in
      if Str.truthy text &&
         (Str.contains "intern" (Str.lower text) ||
          Str.contains "software" (Str.lower text))
      then
        match (if Str.startswith "http" href then inr href
               else urljoin (base_url comp) href) with
        | inl e => (inl e, (jobs, t))
        | inr full_url =>
            let job := {| company := name comp;
                          title := Str.take 100 text;
                          url := full_url;
                          location := "US";
                          date_found := clock t |} in
            if relevant text then
              let jobs := jobs ++ [job] in
              if 10 <=? length jobs then (inr tt, (jobs, S t))
              else google_links comp rest jobs (S t)
            else google_links comp rest jobs (S t)
        end
      else google_links comp rest jobs t
  end.

(** The loop over [job_elements[:15]] of [scrape_google]. *)
Fixpoint google_elements (comp : Company) (elems : list node)
    (jobs : list Job) (t : nat) : (exn + unit) * Locals :=
  match elems with
  | [] => (inr tt, (jobs, t))
  | elem :: rest =>
      let title_elem :=
        bs4.find ["h3"; "h4"; "a"; "span"] (bs4.class_ title_class) elem in
      let link_elem := bs4.find ["a"] bs4.href_True elem in
      match title_elem, link_elem with
      | Some title_elem, Some link_elem =>
          let title := Str.strip (bs4.get_text title_elem) in
          match urljoin (base_url comp) (bs4.get link_elem "href" "") with
          | inl e => (inl e, (jobs, t))
          | inr url =>
              let job := {| company := name comp;
                            title := title;
                            url := url;
                            location := "US";
                            date_found := clock t |} in
              if relevant title then google_elements comp rest (jobs ++ [job]) (S t)
              else google_elements comp rest jobs (S t)
          end
      | _, _ => google_elements comp rest jobs t
      end
  end.

(** The body of [scrape_google] once the page is parsed. *)
Definition google_extract (comp : Company) (soup : node) : Eff Locals unit :=
  fun '(jobs, t) =>
    let job_elements := bs4.find_all ["div"; "li"] (bs4.class_ job_or_card) soup in
    match job_elements with
    | [] =>
        let all_links := bs4.find_all ["a"] bs4.href_True soup in
        google_links comp (take 30 all_links) jobs t
    | _ :: _ => google_elements comp (take 15 job_elements) jobs t
    end.

Definition scrape_google_using (comp : Company) : M (list Job) :=
  returning_jobs []
    (try_except
       (let* response := requests_get (search_url comp) in
        let* soup := parse_html (requests.text response) in
        let* _ := google_extract comp soup in
        sleep)
       (fun e => ret tt)).

(** The loop over [job_cards[:15]] of [scrape_microsoft]. *)
Fixpoint microsoft_cards (comp : Company) (cards : list node)
    (jobs : list Job) (t : nat) : (exn + unit) * Locals :=
  match cards with
  | [] => (inr tt, (jobs, t))
  | card :: rest =>
      match bs4.find ["a"] bs4.href_True card with
      | Some link =>
          let title := Str.strip (bs4.get_text link) in
          match urljoin (base_url comp) (bs4.get link "href" "") with
          | inl e => (inl e, (jobs, t))
          | inr url =>
              let job := {| company := name comp;
                            title := title;
                            url := url;
                            location := "US";
                            date_found := clock t |} in
              if relevant title then microsoft_cards comp rest (jobs ++ [job]) (S t)
              else microsoft_cards comp rest jobs (S t)
          end
      | None => microsoft_cards comp rest jobs t
      end
  end.

Definition microsoft_extract (comp : Company) (soup : node) : Eff Locals unit :=
  fun '(jobs, t) =>
    let job_cards := bs4.find_all ["div"; "article"] (bs4.class_ job_or_card) soup in
    microsoft_cards comp (take 15 job_cards) jobs t.

Definition scrape_microsoft_using (comp : Company) : M (list Job) :=
  returning_jobs []
    (try_except
       (let* response := requests_get (search_url comp) in
        let* soup := parse_html (requests.text response) in
        let* _ := microsoft_extract comp soup in
        sleep)
       (fun e => ret tt)).

Definition generic_lexicon : list string :=
  [ "intern"; "software"; "developer"; "engineer" ].

(** The loop over [all_links[:30]] of [scrape_generic]. *)
Fixpoint generic_links (comp : Company) (links : list node)
    (jobs : list Job) (t : nat) : (exn + unit) * Locals :=
  match links with
  | [] => (inr tt, (jobs, t))
  | link :: rest =>
      let text := Str.strip (bs4.get_text link) in
      let href := bs4.get link "href" "" in
      if Str.truthy text && (10 <? String.length text) && (String.length text <? 150)
      then
        if any (fun term => Str.contains term (Str.lower text)) generic_lexicon
        then
          match (if Str.startswith "http" href then inr href
                 else urljoin (base_url comp) href) with
          | inl e => (inl e, (jobs, t))
          | inr full_url =>
              let job := {| company := name comp;
                            title := text;
                            url := full_url;
                            location := "US";
                            date_found := clock t |} in
              if relevant text then generic_links comp rest (jobs ++ [job]) (S t)
              else generic_links comp rest jobs (S t)
          end
        else generic_links comp rest jobs t
      else generic_links comp rest jobs t
  end.

Definition generic_extract (comp : Company) (soup : node) : Eff Locals unit :=
  fun '(jobs, t) =>
    let all_links := bs4.find_all ["a"] bs4.href_True soup in
    generic_links comp (take 30 all_links) jobs t.

Definition scrape_generic_using (comp : Company) : M (list Job) :=
  returning_jobs []
    (try_except
       (let* response := requests_get (search_url comp) in
        let* soup := parse_html (requests.text response) in
        let* _ := generic_extract comp soup in
        sleep)
       (fun e => ret tt)).

End Adapters.

Definition scrape_google : Company -> M (list Job) :=
  scrape_google_using is_backend_internship.

Definition scrape_microsoft : Company -> M (list Job) :=
  scrape_microsoft_using is_backend_internship.

Definition scrape_generic : Company -> M (list Job) :=
  scrape_generic_using is_backend_internship.

(** *** The orchestrator *)

(** The loop [for job in jobs] of [scrape_all], on [self.seen_jobs] and
    [all_new_jobs]. *)
Fixpoint record_new (jobs : list Job) (seen : gmap string Job)
    (all_new_jobs : list Job) : gmap string Job * list Job :=
  match jobs with
  | [] => (seen, all_new_jobs)
  | job :: rest =>
      let job_id := get_job_id job in
      match seen !! job_id with
      | None => record_new rest (<[job_id := job]> seen) (all_new_jobs ++ [job])
      | Some _ => record_new rest seen all_new_jobs
      end
  end.

Definition filter_seen (jobs all_new_jobs : list Job) : M (list Job) :=
  fun s =>
    let '(seen, all_new_jobs) := record_new jobs (seen_jobs s) all_new_jobs in
    (inr all_new_jobs, set_seen_jobs seen s).

(** The choice of the adapter by [company['type']]. *)
Definition scrape_company (comp : Company) : M (list Job) :=
  if String.eqb (type comp) "google" then scrape_google comp
  else if String.eqb (type comp) "microsoft" then scrape_microsoft comp
  else scrape_generic comp.

(** The loop [for company in self.companies] of [scrape_all]. *)
Fixpoint scrape_companies (comps : list Company) (all_new_jobs : list Job)
    : M (list Job) :=
  match comps with
  | [] => ret all_new_jobs
  | comp :: rest =>
      let* jobs := scrape_company comp in
      let* all_new_jobs := filter_seen jobs all_new_jobs in
      scrape_companies rest all_new_jobs
  end.

Definition scrape_all (self : JobScraper) : M (list Job) :=
  let* all_new_jobs := scrape_companies (companies self) [] in
  let* _ := save_seen_jobs self in
  ret all_new_jobs.

(** [check_jobs] of app.py, as far as it acts on the scraper: one cycle,
    with whatever it raises caught and logged. *)
Definition check_jobs (scraper : JobScraper) : M unit :=
  try_except
    (let* new_jobs := scrape_all scraper in ret tt)
    (fun e => ret tt).

(** The scheduler of app.py: [check_jobs] at the start and then at each
    interval, [n] times in all. *)
Fixpoint scheduled (n : nat) (scraper : JobScraper) : M unit :=
  match n with
  | O => ret tt
  | S n' => let* _ := check_jobs scraper in scheduled n' scraper
  end.

(** *** Notions used in the statements *)

(** The parsed page of a source, when the request and the parser both
    return; the status of the answer is not looked at. *)
Definition page_of (comp : Company) : option node :=
  match http (search_url comp) with
  | inl _ => None
  | inr response =>
      match BeautifulSoup (requests.text response) with
      | inl _ => None
      | inr soup => Some soup
      end
  end.

(** The request for the page of a source raises. *)
Definition fetch_error (comp : Company) : Prop :=
  exists e : exn, http (search_url comp) = inl e.

(** The parser raises on the page of a source. *)
Definition parse_error (comp : Company) : Prop :=
  exists (response : requests.Response) (e : exn),
    http (search_url comp) = inr response /\
    BeautifulSoup (requests.text response) = inl e.

(** The extraction that [scrape_company] runs on a parsed page. *)
Definition company_extract (comp : Company) (soup : node) : Eff Locals unit :=
  if String.eqb (type comp) "google" then
    google_extract is_backend_internship comp soup
  else if String.eqb (type comp) "microsoft" then
    microsoft_extract is_backend_internship comp soup
  else generic_extract is_backend_internship comp soup.

(** The candidates [scrape_company] returns for a source when the clock
    has been read [t] times, and the number of reads afterwards. *)
Definition extracted (comp : Company) (t : nat) : Locals :=
  match page_of comp with
  | None => ([], t)
  | Some soup => (company_extract comp soup ([], t)).2
  end.

(** The link the two flat scans compute for a candidate. *)
Definition resolve (comp : Company) (href : string) : exn + string :=
  if Str.startswith "http" href then inr href else urljoin (base_url comp) href.

(** What the loops of the adapters build from one element of the page, for
    a classifier [relevant]. *)

(** [job] comes from one of the anchors [links] in the way of
    [scrape_generic]. *)
Definition generic_candidate (relevant : string -> bool) (comp : Company)
    (links : list node) (job : Job) : Prop :=
  exists link : node,
    link ∈ links /\
    title job = Str.strip (bs4.get_text link) /\
    10 < String.length (title job) < 150 /\
    Exists (fun term => Str.substring_of term (Str.lower (title job))) generic_lexicon /\
    resolve comp (bs4.get link "href" "") = inr (url job) /\
    relevant (title job) = true.

(** [job] comes from one of the anchors [links] in the way of the fallback
    of [scrape_google]. *)
Definition google_link_candidate (relevant : string -> bool) (comp : Company)
    (links : list node) (job : Job) : Prop :=
  exists link : node,
    link ∈ links /\
    title job = Str.take 100 (Str.strip (bs4.get_text link)) /\
    resolve comp (bs4.get link "href" "") = inr (url job) /\
    relevant (Str.strip (bs4.get_text link)) = true.

(** [job] comes from one of the containers [elems] in the way of
    [scrape_google]. *)
Definition google_element_candidate (relevant : string -> bool) (comp : Company)
    (elems : list node) (job : Job) : Prop :=
  exists elem title_elem link_elem : node,
    elem ∈ elems /\
    bs4.find ["h3"; "h4"; "a"; "span"] (bs4.class_ title_class) elem = Some title_elem /\
    bs4.find ["a"] bs4.href_True elem = Some link_elem /\
    title job = Str.strip (bs4.get_text title_elem) /\
    urljoin (base_url comp) (bs4.get link_elem "href" "") = inr (url job) /\
    relevant (title job) = true.

(** [job] comes from one of the cards [cards] in the way of
    [scrape_microsoft]. *)
Definition microsoft_candidate (relevant : string -> bool) (comp : Company)
    (cards : list node) (job : Job) : Prop :=
  exists card link : node,
    card ∈ cards /\
    bs4.find ["a"] bs4.href_True card = Some link /\
    title job = Str.strip (bs4.get_text link) /\
    urljoin (base_url comp) (bs4.get link "href" "") = inr (url job) /\
    relevant (title job) = true.

(** [new] lists postings that were not in [seen0] and are now stored in
    [seen] under pairwise different fingerprints, and [seen] is [seen0] with
    one entry more for each of them. *)
Definition novel (seen0 seen : gmap string Job) (new : list Job) : Prop :=
  seen0 ⊆ seen /\
  NoDup (map get_job_id new) /\
  (forall job, job ∈ new ->
     seen0 !! get_job_id job = None /\ seen !! get_job_id job = Some job) /\
  size seen = size seen0 + length new.

(** *** The application (app.py) *)

(** [app.config['ALERT_EMAIL']], or the exception the lookup raises. *)
Variable alert_email : exn + string.
(** [mail.send(msg)]: the server accepts the message, or the call raises. *)
Variable mail_send : app.Message -> exn + unit.

(** A method of [scraper] called from the application. *)
Definition on_scraper {A} (c : M A) : Eff app.App A :=
  fun a =>
    match c (app.scraper_state a) with
    | (r, s) => (r, app.set_scraper_state s a)
    end.

(** [datetime.now().isoformat()] *)
Definition now : Eff app.App string :=
  on_scraper (fun s => (inr (clock (ticks s)), set_ticks (S (ticks s)) s)).

(** The body of an alert: the loop [for job in jobs] on [body], and the
    line after it. *)
Definition alert_body (jobs : list Job) : string :=
  let body :=
    fold_left
      (fun body job =>
         let body := body +:+ ("Company: " +:+ company job +:+ newline) in
         let body := body +:+ ("Position: " +:+ title job +:+ newline) in
         let body := body +:+ ("Link: " +:+ url job +:+ newline) in
         let body := body +:+ ("Found: " +:+ date_found job +:+ newline) in
         body +:+ (copies 40 "-" +:+ (newline +:+ newline)))
      jobs
      ("🚀 New Backend Internships Found!" +:+ (newline +:+ newline)) in
  body +:+ (newline +:+ "Total new opportunities: " +:+ str (length jobs)).

Definition alert_subject (jobs : list Job) : string :=
  "🔥 " +:+ str (length jobs) +:+ " New Backend Internships Available!".

(** The [Message] built for [jobs]. *)
Definition alert_message (jobs : list Job) (recipient : string) : app.Message :=
  {| app.subject := alert_subject jobs;
     app.recipients := [recipient];
     app.body := alert_body jobs |}.

Definition send_alert_email (jobs : list Job) : Eff app.App unit :=
  match jobs with
  | [] => ret tt
  | _ :: _ =>
      try_except
        (let* recipient := fun a => (alert_email, a) in
         let msg := alert_message jobs recipient in
         fun a =>
           match mail_send msg with
           | inl e => (inl e, a)
           | inr _ => (inr tt, app.set_outbox (app.outbox a ++ [msg]) a)
           end)
        (fun e => ret tt)
  end.

(** [check_jobs] of app.py in full: the cycle, the update of
    [last_results], and the alert. *)
Definition app_check_jobs (scraper : JobScraper) : Eff app.App unit :=
  try_except
    (let* new_jobs := on_scraper (scrape_all scraper) in
     match new_jobs with
     | _ :: _ =>
         let* _ := fun a =>
           (inr tt,
            app.set_last_results
              {| app.jobs := new_jobs;
                 app.last_check := app.last_check (app.last_results a);
                 app.total_found := app.total_found (app.last_results a) |} a) in
         let* stamp := now in
         let* _ := fun a =>
           (inr tt,
            app.set_last_results
              {| app.jobs := app.jobs (app.last_results a);
                 app.last_check := Some stamp;
                 app.total_found := app.total_found (app.last_results a) |} a) in
         let* _ := fun a =>
           (inr tt,
            app.set_last_results
              {| app.jobs := app.jobs (app.last_results a);
                 app.last_check := app.last_check (app.last_results a);
                 app.total_found :=
                   app.total_found (app.last_results a) + length new_jobs |} a) in
         send_alert_email new_jobs
     | [] =>
         let* stamp := now in
         fun a =>
           (inr tt,
            app.set_last_results
              {| app.jobs := app.jobs (app.last_results a);
                 app.last_check := Some stamp;
                 app.total_found := app.total_found (app.last_results a) |} a)
     end)
    (fun e => ret tt).

(** The scheduler of app.py on the application: [check_jobs] at the start
    and then at each interval, [n] times in all. *)
Fixpoint app_scheduled (n : nat) (scraper : JobScraper) : Eff app.App unit :=
  match n with
  | O => ret tt
  | S n' => let* _ := app_check_jobs scraper in app_scheduled n' scraper
  end.

(** *** Further notions used in the statements *)

(** The postings the adapters return in one cycle over [comps], in the order
    of the sources, when the clock has been read [t] times before. *)
Fixpoint cycle_candidates (comps : list Company) (t : nat) : list Job :=
  match comps with
  | [] => []
  | comp :: rest =>
      (extracted comp t).1 ++ cycle_candidates rest (extracted comp t).2
  end.

(** The most postings the adapter of a source returns: [scrape_google] and
    [scrape_microsoft] look at 15 elements (the flat scan of [scrape_google]
    stops at 10 postings), and [scrape_generic] looks at 30 links. *)
Definition cap (comp : Company) : nat :=
  if String.eqb (type comp) "google" then 15
  else if String.eqb (type comp) "microsoft" then 15
  else 30.

(** A posting of the source [comp], stamped at one of the reads of the clock
    from [t0] on and before [t]. *)
Definition stamped (comp : Company) (t0 t : nat) (job : Job) : Prop :=
  company job = name comp /\
  location job = "US" /\
  exists t', t0 <= t' < t /\ date_found job = clock t'.

(** The messages the mail server accepts when [send_alert_email] is called
    on [jobs]. *)
Definition delivered (jobs : list Job) : list app.Message :=
  match jobs, alert_email with
  | _ :: _, inr recipient =>
      match mail_send (alert_message jobs recipient) with
      | inr _ => [alert_message jobs recipient]
      | inl _ => []
      end
  | _, _ => []
  end.

(** The lines of an alert that describe one posting. *)
Definition alert_entry (job : Job) : string :=
  "Company: " +:+ company job +:+ newline +:+
  "Position: " +:+ title job +:+ newline +:+
  "Link: " +:+ url job +:+ newline +:+
  "Found: " +:+ date_found job +:+ newline.

(** ** Properties of the string operations *)

Lemma startswith_app (p s : string) : Str.startswith p (p +:+ s) = true.
Proof.
  induction p as [|a p IH]; simpl; [reflexivity|].
  rewrite Ascii.eqb_refl. exact IH.
Qed.

Lemma startswith_inv (p s : string) :
  Str.startswith p s = true -> exists post, s = p +:+ post.
Proof.
  revert s. induction p as [|a p IH]; intros s H.
  - exists s. reflexivity.
  - destruct s as [|b s]; simpl in H; [discriminate|].
    destruct (Ascii.eqb_spec a b) as [->|]; [|discriminate].
    destruct (IH _ H) as [post ->]. exists post. reflexivity.
Qed.

Lemma contains_spec (sub s : string) :
  Str.contains sub s = true <-> Str.substring_of sub s.
Proof.
  split.
  - induction s as [|c s IH]; simpl; intros H.
    + apply orb_true_iff in H as [H|H]; [|discriminate].
      destruct (startswith_inv _ _ H) as [post ->]. exists EmptyString, post. reflexivity.
    + apply orb_true_iff in H as [H|H].
      * destruct (startswith_inv _ _ H) as [post ->]. exists EmptyString, post. reflexivity.
      * destruct (IH H) as (pre & post & ->). exists (String c pre), post. reflexivity.
  - intros (pre & post & ->). induction pre as [|c pre IH].
    + simpl. destruct (sub +:+ post) eqn:E; simpl; rewrite <- E;
        rewrite startswith_app; reflexivity.
    + change (String c pre +:+ sub +:+ post) with (String c (pre +:+ sub +:+ post)).
      simpl. rewrite IH. apply orb_true_r.
Qed.

Lemma any_Exists {A} (p : A -> bool) (l : list A) :
  any p l = true <-> Exists (fun x => p x = true) l.
Proof.
  unfold any. rewrite existsb_exists, Exists_exists.
  split; intros (x & Hx & Hp); exists x; split; auto; by apply list_elem_of_In.
Qed.

Lemma append_assoc (a b c : string) : (a +:+ b) +:+ c = a +:+ b +:+ c.
Proof.
induction a as [|x a IH]; [reflexivity|].
change (String x ((a +:+ b) +:+ c) = String x (a +:+ b +:+ c)). by rewrite IH.
Qed.

Lemma substring_of_trans (a b t : string) :
Str.substring_of a b -> Str.substring_of b t -> Str.substring_of a t.
Proof.
intros (p & q & ->) (pre & post & ->).
exists (pre +:+ p), (q +:+ post). by rewrite !append_assoc.
Qed.

(** The topic terms of the code are those the specification lists and
  [nodejs], which occurs only where [node] does. *)
Lemma keywords_as_specified (text : string) :
any (fun term => Str.contains term text) keywords =
any (fun term => Str.contains term text) spec_topic_terms.
Proof.
cbn [any existsb keywords spec_topic_terms]. do 6 f_equal.
destruct (Str.contains "node" text) eqn:Hnode; [reflexivity|].
destruct (Str.contains "nodejs" text) eqn:Hnodejs; [|reflexivity].
apply contains_spec in Hnodejs.
assert (Hsub : Str.substring_of "node" "nodejs") by (by exists "", "js").
apply (substring_of_trans _ _ _ Hsub), contains_spec in Hnodejs. congruence.
Qed.

(** ** Running an adapter *)

Ltac run_adapter extract :=
  unfold returning_jobs, try_except, bind, requests_get, parse_html, sleep, ret, page_of;
  match goal with s : State |- _ => destruct s as [seen fs t0] end;
  cbv beta iota delta [ticks];
  destruct (http _); [reflexivity|];
  destruct (BeautifulSoup _); [reflexivity|];
  match goal with
  | |- context [extract ?r ?c ?n ?l] =>
      destruct (extract r c n l) as [[e|[]] [jobs t]]
  end;
  reflexivity.

Lemma scrape_google_using_run relevant comp s :
  scrape_google_using relevant comp s =
  match page_of comp with
  | None => (inr [], s)
  | Some soup =>
      let '(jobs, t) := (google_extract relevant comp soup ([], ticks s)).2 in
      (inr jobs, set_ticks t s)
  end.
Proof. unfold scrape_google_using. run_adapter google_extract. Qed.

Lemma scrape_microsoft_using_run relevant comp s :
  scrape_microsoft_using relevant comp s =
  match page_of comp with
  | None => (inr [], s)
  | Some soup =>
      let '(jobs, t) := (microsoft_extract relevant comp soup ([], ticks s)).2 in
      (inr jobs, set_ticks t s)
  end.
Proof. unfold scrape_microsoft_using. run_adapter microsoft_extract. Qed.

Lemma scrape_generic_using_run relevant comp s :
  scrape_generic_using relevant comp s =
  match page_of comp with
  | None => (inr [], s)
  | Some soup =>
      let '(jobs, t) := (generic_extract relevant comp soup ([], ticks s)).2 in
      (inr jobs, set_ticks t s)
  end.
Proof. unfold scrape_generic_using. run_adapter generic_extract. Qed.

Lemma scrape_company_run comp s :
  scrape_company comp s =
  match page_of comp with
  | None => (inr [], s)
  | Some soup =>
      let '(jobs, t) := (company_extract comp soup ([], ticks s)).2 in
      (inr jobs, set_ticks t s)
  end.
Proof.
  unfold scrape_company, company_extract, scrape_google, scrape_microsoft, scrape_generic.
  destruct (String.eqb (type comp) "google");
    [apply scrape_google_using_run|].
  destruct (String.eqb (type comp) "microsoft");
    [apply scrape_microsoft_using_run | apply scrape_generic_using_run].
Qed.

(** ** The loops of the adapters *)

(** Case analysis on the tests of a loop body. *)
Ltac loop_cases :=
  repeat match goal with
         | |- context [if ?c then _ else _] => destruct c eqn:?
         | |- context [match ?x with Some _ => _ | None => _ end] => destruct x eqn:?
         | |- context [match ?x with inl _ => _ | inr _ => _ end] => destruct x eqn:?
         end.

Lemma Forall_snoc {A} (P : A -> Prop) (l : list A) (x : A) :
  Forall P l -> P x -> Forall P (l ++ [x]).
Proof. intros Hl Hx. apply Forall_app. split; [exact Hl | by constructor]. Qed.

Lemma generic_links_candidates relevant comp links0 links :
  forall jobs t,
    (forall link, link ∈ links -> link ∈ links0) ->
    Forall (generic_candidate relevant comp links0) jobs ->
    Forall (generic_candidate relevant comp links0)
      (generic_links relevant comp links jobs t).2.1.
Proof.
  induction links as [|link rest IH]; intros jobs t Hsub Hjobs; [exact Hjobs|].
  assert (Hrest : forall l, l ∈ rest -> l ∈ links0)
    by (intros l Hl; apply Hsub; by right).
  cbn [generic_links]. fold (resolve comp (bs4.get link "href" "")).
  loop_cases; try (apply IH; assumption); try exact Hjobs.
  apply IH; [assumption|]. apply Forall_snoc; [assumption|].
  exists link. cbn [title url].
  repeat match goal with
         | H : _ && _ = true |- _ => apply andb_true_iff in H as [? ?]
         end.
  split; [apply Hsub; by left|].
  split; [reflexivity|].
  split; [split; [by apply Nat.ltb_lt | by apply Nat.ltb_lt]|].
  split; [|split; assumption].
  match goal with H : any _ _ = true |- _ => apply any_Exists in H; rename H into Hterm end.
  eapply Exists_impl; [exact Hterm|]. intros term. apply contains_spec.
Qed.

Lemma google_links_candidates relevant comp links0 links :
  forall jobs t,
    (forall link, link ∈ links -> link ∈ links0) ->
    Forall (google_link_candidate relevant comp links0) jobs ->
    Forall (google_link_candidate relevant comp links0)
      (google_links relevant comp links jobs t).2.1.
Proof.
  induction links as [|link rest IH]; intros jobs t Hsub Hjobs; [exact Hjobs|].
  assert (Hrest : forall l, l ∈ rest -> l ∈ links0)
    by (intros l Hl; apply Hsub; by right).
  cbn [google_links]. fold (resolve comp (bs4.get link "href" "")).
  assert (Hnew : relevant (Str.strip (bs4.get_text link)) = true ->
                 forall full_url stamp,
                   resolve comp (bs4.get link "href" "") = inr full_url ->
                   Forall (google_link_candidate relevant comp links0)
                     (jobs ++ [ {| company := name comp;
                                   title := Str.take 100 (Str.strip (bs4.get_text link));
                                   url := full_url;
                                   location := "US";
                                   date_found := stamp |} ])).
  { intros Hrel full_url stamp Hurl. apply Forall_snoc; [assumption|].
    exists link. cbn [title url]. repeat split; try assumption.
    apply Hsub. by left. }
  loop_cases; cbn [fst snd]; try (apply IH; assumption); auto.
Qed.

Lemma google_links_length relevant comp links :
  forall jobs t,
    length jobs < 10 ->
    length (google_links relevant comp links jobs t).2.1 <= 10.
Proof.
  induction links as [|link rest IH]; intros jobs t Hlen; cbn [google_links].
  - cbn [fst snd]. lia.
  - fold (resolve comp (bs4.get link "href" "")).
    loop_cases; cbn [fst snd];
      first [ apply IH;
              first [ assumption
                    | match goal with
                      | H : (10 <=? _) = false |- _ => by apply Nat.leb_gt in H
                      end ]
            | rewrite length_app; cbn [length]; lia
            | lia ].
Qed.

Lemma take_length (n : nat) (s : string) : String.length (Str.take n s) <= n.
Proof.
  revert s. induction n as [|n IH]; intros [|c s]; cbn; try lia.
  specialize (IH s). lia.
Qed.

Lemma generic_links_length relevant comp links :
  forall jobs t,
    length (generic_links relevant comp links jobs t).2.1 <= length jobs + length links.
Proof.
  induction links as [|link rest IH]; intros jobs t; cbn [generic_links length].
  - cbn [fst snd]. lia.
  - fold (resolve comp (bs4.get link "href" "")).
    loop_cases; cbn [fst snd]; try lia;
      match goal with
      | |- context [generic_links _ _ _ ?j ?t'] => specialize (IH j t')
      end;
      rewrite ?length_app in IH; cbn [length] in IH; lia.
Qed.

Lemma google_elements_candidates relevant comp elems0 elems :
  forall jobs t,
    (forall elem, elem ∈ elems -> elem ∈ elems0) ->
    Forall (google_element_candidate relevant comp elems0) jobs ->
    Forall (google_element_candidate relevant comp elems0)
      (google_elements relevant comp elems jobs t).2.1.
Proof.
  induction elems as [|elem rest IH]; intros jobs t Hsub Hjobs; [exact Hjobs|].
  assert (Hrest : forall e, e ∈ rest -> e ∈ elems0)
    by (intros e He; apply Hsub; by right).
  cbn [google_elements].
  destruct (bs4.find ["h3"; "h4"; "a"; "span"] (bs4.class_ title_class) elem)
    as [title_elem|] eqn:Htitle; [|by apply IH].
  destruct (bs4.find ["a"] bs4.href_True elem) as [link_elem|] eqn:Hlink;
    [|by apply IH].
  destruct (urljoin (base_url comp) (bs4.get link_elem "href" "")) as [e|full_url] eqn:Hurl;
    [exact Hjobs|].
  destruct (relevant (Str.strip (bs4.get_text title_elem))) eqn:Hrel;
    [|by apply IH].
  apply IH; [assumption|]. apply Forall_snoc; [assumption|].
  exists elem, title_elem, link_elem. cbn [title url].
  repeat split; try assumption. apply Hsub. by left.
Qed.

Lemma microsoft_cards_candidates relevant comp cards0 cards :
  forall jobs t,
    (forall card, card ∈ cards -> card ∈ cards0) ->
    Forall (microsoft_candidate relevant comp cards0) jobs ->
    Forall (microsoft_candidate relevant comp cards0)
      (microsoft_cards relevant comp cards jobs t).2.1.
Proof.
  induction cards as [|card rest IH]; intros jobs t Hsub Hjobs; [exact Hjobs|].
  assert (Hrest : forall c, c ∈ rest -> c ∈ cards0)
    by (intros c Hc; apply Hsub; by right).
  cbn [microsoft_cards].
  destruct (bs4.find ["a"] bs4.href_True card) as [link|] eqn:Hlink; [|by apply IH].
  destruct (urljoin (base_url comp) (bs4.get link "href" "")) as [e|full_url] eqn:Hurl;
    [exact Hjobs|].
  destruct (relevant (Str.strip (bs4.get_text link))) eqn:Hrel; [|by apply IH].
  apply IH; [assumption|]. apply Forall_snoc; [assumption|].
  exists card, link. cbn [title url].
  repeat split; try assumption. apply Hsub. by left.
Qed.

(** The identifying tuples of the candidates do not depend on the clock. *)

Lemma identity_snoc (jobs jobs' : list Job) (job job' : Job) :
  map identity jobs = map identity jobs' ->
  identity job = identity job' ->
  map identity (jobs ++ [job]) = map identity (jobs' ++ [job']).
Proof. intros H1 H2. rewrite !map_app. cbn. by rewrite H1, H2. Qed.

Lemma generic_links_identity relevant comp links :
  forall jobs jobs' t t',
    map identity jobs = map identity jobs' ->
    map identity (generic_links relevant comp links jobs t).2.1 =
    map identity (generic_links relevant comp links jobs' t').2.1.
Proof.
  induction links as [|link rest IH]; intros jobs jobs' t t' H; [exact H|].
  cbn [generic_links]. fold (resolve comp (bs4.get link "href" "")).
  loop_cases; try exact H; apply IH; try assumption. by apply identity_snoc.
Qed.

Lemma microsoft_cards_identity relevant comp cards :
  forall jobs jobs' t t',
    map identity jobs = map identity jobs' ->
    map identity (microsoft_cards relevant comp cards jobs t).2.1 =
    map identity (microsoft_cards relevant comp cards jobs' t').2.1.
Proof.
  induction cards as [|card rest IH]; intros jobs jobs' t t' H; [exact H|].
  cbn [microsoft_cards]. loop_cases; try exact H; apply IH; try assumption.
  by apply identity_snoc.
Qed.

Lemma google_elements_identity relevant comp elems :
  forall jobs jobs' t t',
    map identity jobs = map identity jobs' ->
    map identity (google_elements relevant comp elems jobs t).2.1 =
    map identity (google_elements relevant comp elems jobs' t').2.1.
Proof.
  induction elems as [|elem rest IH]; intros jobs jobs' t t' H; [exact H|].
  cbn [google_elements]. loop_cases; try exact H; apply IH; try assumption.
  by apply identity_snoc.
Qed.

Lemma google_links_identity relevant comp links :
  forall jobs jobs' t t',
    map identity jobs = map identity jobs' ->
    map identity (google_links relevant comp links jobs t).2.1 =
    map identity (google_links relevant comp links jobs' t').2.1.
Proof.
  induction links as [|link rest IH]; intros jobs jobs' t t' H; [exact H|].
  assert (Hlen : length jobs = length jobs')
    by (rewrite <- (length_map identity jobs), H; apply length_map).
  cbn [google_links]. fold (resolve comp (bs4.get link "href" "")).
  destruct (Str.truthy _ && _); [|by apply IH].
  destruct (resolve comp (bs4.get link "href" "")) as [e|full_url]; [exact H|].
  destruct (relevant _); [|by apply IH].
  rewrite !length_app, Hlen. cbn [length].
  destruct (10 <=? _); cbn [fst snd]; [|apply IH]; by apply identity_snoc.
Qed.

Lemma company_extract_identity comp soup t t' :
  map identity (company_extract comp soup ([], t)).2.1 =
  map identity (company_extract comp soup ([], t')).2.1.
Proof.
  unfold company_extract, google_extract, microsoft_extract, generic_extract.
  loop_cases;
    first [ by apply google_links_identity
          | by apply google_elements_identity
          | by apply microsoft_cards_identity
          | by apply generic_links_identity ].
Qed.

Lemma extracted_identity comp t t' :
  map identity (extracted comp t).1 = map identity (extracted comp t').1.
Proof.
  unfold extracted. destruct (page_of comp); [|reflexivity].
  apply company_extract_identity.
Qed.

(** ** The fingerprint *)

Lemma get_job_id_identity (job job' : Job) :
  identity job = identity job' -> get_job_id job = get_job_id job'.
Proof.
  unfold identity, get_job_id, job_string. intros H.
  injection H as -> -> ->. reflexivity.
Qed.

Lemma map_get_job_id_identity (jobs jobs' : list Job) :
  map identity jobs = map identity jobs' ->
  map get_job_id jobs = map get_job_id jobs'.
Proof.
  revert jobs'. induction jobs as [|job jobs IH]; intros [|job' jobs'] H;
    try discriminate; [reflexivity|].
  cbn [map] in H |- *.
  assert (Hj : identity job = identity job') by congruence.
  assert (Hjobs : map identity jobs = map identity jobs') by congruence.
  f_equal; [by apply get_job_id_identity | by apply IH].
Qed.

(** ** The dedup step *)

Lemma record_new_known (jobs : list Job) :
  forall (seen : gmap string Job) (acc : list Job),
    Forall (fun job => is_Some (seen !! get_job_id job)) jobs ->
    record_new jobs seen acc = (seen, acc).
Proof.
  induction jobs as [|job jobs IH]; intros seen acc H; [reflexivity|].
  apply Forall_cons in H as [[old Hold] H].
  cbn [record_new]. rewrite Hold. by apply IH.
Qed.

Lemma record_new_subseteq (jobs : list Job) :
  forall (seen : gmap string Job) (acc : list Job),
    seen ⊆ (record_new jobs seen acc).1.
Proof.
  induction jobs as [|job jobs IH]; intros seen acc; [reflexivity|].
  cbn [record_new]. destruct (seen !! get_job_id job) eqn:E; [apply IH|].
  etrans; [|apply IH]. by apply insert_subseteq.
Qed.

Lemma record_new_recorded (jobs : list Job) :
  forall (seen : gmap string Job) (acc : list Job),
    Forall (fun job => is_Some ((record_new jobs seen acc).1 !! get_job_id job)) jobs.
Proof.
  induction jobs as [|job jobs IH]; intros seen acc; [constructor|].
  cbn [record_new]. destruct (seen !! get_job_id job) eqn:E.
  - constructor; [|apply IH].
    eapply lookup_weaken_is_Some; [by eexists | apply record_new_subseteq].
  - constructor; [|apply IH].
    eapply lookup_weaken_is_Some; [|apply record_new_subseteq].
    rewrite lookup_insert_eq. by eexists.
Qed.

Lemma Forall_known_ids (seen : gmap string Job) (jobs jobs' : list Job) :
  map get_job_id jobs = map get_job_id jobs' ->
  Forall (fun job => is_Some (seen !! get_job_id job)) jobs' ->
  Forall (fun job => is_Some (seen !! get_job_id job)) jobs.
Proof.
  revert jobs'. induction jobs as [|job jobs IH]; intros [|job' jobs'] Hids H;
    try discriminate; [constructor|].
  cbn [map] in Hids. apply Forall_cons in H as [Hjob H].
  constructor.
  - replace (get_job_id job) with (get_job_id job') by congruence. exact Hjob.
  - apply (IH jobs'); [congruence | exact H].
Qed.

Lemma novel_refl (seen : gmap string Job) : novel seen seen [].
Proof.
  split; [reflexivity|]. split; [constructor|]. split; [|cbn; lia].
  intros job H. by apply elem_of_nil in H.
Qed.

Lemma novel_insert (seen0 seen : gmap string Job) (acc : list Job) (job : Job) :
  novel seen0 seen acc ->
  seen !! get_job_id job = None ->
  novel seen0 (<[get_job_id job := job]> seen) (acc ++ [job]).
Proof.
  intros (Hsub & Hnodup & Hacc & Hsize) Hfresh.
  assert (Hne : forall old, old ∈ acc -> get_job_id old <> get_job_id job).
  { intros old Hold Heq. destruct (Hacc old Hold) as [_ Hin]. congruence. }
  split; [|split; [|split; [intros job0 H; split|]]].
  - etrans; [exact Hsub|]. by apply insert_subseteq.
  - rewrite map_app. apply NoDup_app. split; [exact Hnodup|]. split.
    + intros id Hid Hjob. apply list_elem_of_fmap in Hid as (old & -> & Hold).
      apply list_elem_of_singleton in Hjob. by apply (Hne old).
    + apply NoDup_singleton.
  - apply elem_of_app in H as [H|H].
    + by apply Hacc.
    + apply list_elem_of_singleton in H as ->.
      eapply lookup_weaken_None; eassumption.
  - apply elem_of_app in H as [H|H].
    + rewrite lookup_insert_ne; [by apply Hacc|]. intros Heq. by apply (Hne job0).
    + apply list_elem_of_singleton in H as ->. apply lookup_insert_eq.
  - rewrite map_size_insert_None by assumption.
    rewrite length_app. cbn [length]. lia.
Qed.

Lemma record_new_novel (seen0 : gmap string Job) (jobs : list Job) :
  forall (seen : gmap string Job) (acc : list Job),
    novel seen0 seen acc ->
    novel seen0 (record_new jobs seen acc).1 (record_new jobs seen acc).2.
Proof.
  induction jobs as [|job jobs IH]; intros seen acc H; [exact H|].
  cbn [record_new]. destruct (seen !! get_job_id job) eqn:E; [by apply IH|].
  apply IH. by apply novel_insert.
Qed.

Lemma record_new_app (jobs1 jobs2 : list Job) :
  forall (seen : gmap string Job) (acc : list Job),
    record_new (jobs1 ++ jobs2) seen acc =
    record_new jobs2 (record_new jobs1 seen acc).1 (record_new jobs1 seen acc).2.
Proof.
  induction jobs1 as [|job jobs1 IH]; intros seen acc; [reflexivity|].
  cbn [record_new app]. destruct (seen !! get_job_id job); apply IH.
Qed.

(** What the step appends to [all_new_jobs] is taken from [jobs], in the
    order of [jobs]. *)
Lemma record_new_sublist (jobs : list Job) :
  forall (seen : gmap string Job) (acc : list Job),
    exists new, (record_new jobs seen acc).2 = acc ++ new /\ new `sublist_of` jobs.
Proof.
  induction jobs as [|job jobs IH]; intros seen acc.
  - exists []. by rewrite app_nil_r.
  - cbn [record_new]. destruct (seen !! get_job_id job).
    + destruct (IH seen acc) as (new & -> & Hsub).
      exists new. split; [reflexivity | by apply sublist_cons].
    + destruct (IH (<[get_job_id job := job]> seen) (acc ++ [job])) as (new & -> & Hsub).
      exists (job :: new). split; [by rewrite <- app_assoc | by apply sublist_skip].
Qed.

(** A posting whose fingerprint is new has that fingerprint returned: the
    posting itself, or the one before it in [jobs] that has the same
    fingerprint. *)
Lemma record_new_complete (jobs : list Job) :
  forall (seen : gmap string Job) (acc : list Job) (job : Job),
    job ∈ jobs ->
    seen !! get_job_id job = None ->
    exists job', job' ∈ (record_new jobs seen acc).2 /\ get_job_id job' = get_job_id job.
Proof.
  induction jobs as [|first jobs IH]; intros seen acc job Hjob Hnew.
  - by apply elem_of_nil in Hjob.
  - assert (Hkept : forall seen' acc', first ∈ acc' ->
                      first ∈ (record_new jobs seen' acc').2).
    { intros seen' acc' Hin. destruct (record_new_sublist jobs seen' acc') as (new & -> & _).
      apply elem_of_app. by left. }
    cbn [record_new].
    destruct (decide (get_job_id first = get_job_id job)) as [Heq|Hne].
    + rewrite Heq, Hnew. exists first. split; [|exact Heq].
      apply Hkept, elem_of_app. right. by left.
    + apply elem_of_cons in Hjob as [->|Hjob]; [done|].
      destruct (seen !! get_job_id first); [by apply IH|].
      apply IH; [exact Hjob|]. by rewrite lookup_insert_ne.
Qed.

(** ** The loop over the sources *)

Lemma scrape_company_extracted comp s :
  scrape_company comp s =
  (inr (extracted comp (ticks s)).1, set_ticks (extracted comp (ticks s)).2 s).
Proof.
  rewrite scrape_company_run. unfold extracted.
  destruct (page_of comp) as [soup|].
  - by destruct (company_extract comp soup ([], ticks s)) as [status [jobs t]].
  - by destruct s.
Qed.

Lemma scrape_companies_cons comp rest acc s :
  scrape_companies (comp :: rest) acc s =
  scrape_companies rest
    (record_new (extracted comp (ticks s)).1 (seen_jobs s) acc).2
    {| seen_jobs := (record_new (extracted comp (ticks s)).1 (seen_jobs s) acc).1;
       files := files s;
       ticks := (extracted comp (ticks s)).2 |}.
Proof.
  cbn [scrape_companies]. unfold bind at 1.
  rewrite scrape_company_extracted. unfold bind, filter_seen. cbn.
  by destruct (record_new _ _ _).
Qed.

Lemma scrape_companies_spec comps :
  forall acc s, exists new s',
    scrape_companies comps acc s = (inr new, s') /\
    files s' = files s /\
    seen_jobs s ⊆ seen_jobs s' /\
    forall seen0, novel seen0 (seen_jobs s) acc -> novel seen0 (seen_jobs s') new.
Proof.
  induction comps as [|comp rest IH]; intros acc s.
  - exists acc, s. do 3 (split; [reflexivity|]). auto.
  - rewrite scrape_companies_cons.
    destruct (IH (record_new (extracted comp (ticks s)).1 (seen_jobs s) acc).2
                {| seen_jobs := (record_new (extracted comp (ticks s)).1 (seen_jobs s) acc).1;
                   files := files s;
                   ticks := (extracted comp (ticks s)).2 |})
      as (new & s' & Hrun & Hfiles & Hsub & Hnovel).
    exists new, s'. cbn in Hfiles, Hsub, Hnovel.
    split; [exact Hrun|]. split; [exact Hfiles|]. split.
    + etrans; [apply record_new_subseteq | exact Hsub].
    + intros seen0 H. apply Hnovel. by apply record_new_novel.
Qed.

Lemma scrape_companies_again comps :
  forall acc s new s',
    scrape_companies comps acc s = (inr new, s') ->
    forall acc2 s2,
      seen_jobs s' ⊆ seen_jobs s2 ->
      exists t, scrape_companies comps acc2 s2 = (inr acc2, set_ticks t s2).
Proof.
  induction comps as [|comp rest IH]; intros acc s new s' Hrun acc2 s2 Hsub.
  - exists (ticks s2). by destruct s2.
  - rewrite scrape_companies_cons in Hrun. rewrite scrape_companies_cons.
    set (jobs1 := (extracted comp (ticks s)).1) in *.
    set (jobs2 := (extracted comp (ticks s2)).1).
    set (s1 := {| seen_jobs := (record_new jobs1 (seen_jobs s) acc).1;
                  files := files s;
                  ticks := (extracted comp (ticks s)).2 |}) in *.
    assert (Hmono : seen_jobs s1 ⊆ seen_jobs s').
    { destruct (scrape_companies_spec rest (record_new jobs1 (seen_jobs s) acc).2 s1)
        as (new' & s'' & Hrun' & _ & Hmono & _).
      rewrite Hrun in Hrun'. by injection Hrun' as -> ->. }
    assert (Hknown : Forall (fun job => is_Some (seen_jobs s2 !! get_job_id job)) jobs2).
    { apply (Forall_known_ids _ jobs2 jobs1).
      - apply map_get_job_id_identity, extracted_identity.
      - eapply Forall_impl; [apply (record_new_recorded jobs1 (seen_jobs s) acc)|].
        intros job Hjob. cbn beta in Hjob.
        eapply lookup_weaken_is_Some; [exact Hjob|].
        etrans; [exact Hmono | exact Hsub]. }
    rewrite (record_new_known _ _ _ Hknown). cbn [fst snd].
    destruct (IH _ _ _ _ Hrun acc2
                {| seen_jobs := seen_jobs s2;
                   files := files s2;
                   ticks := (extracted comp (ticks s2)).2 |} Hsub)
      as [t Ht].
    exists t. rewrite Ht. reflexivity.
Qed.

(** ** The classifier inside the adapters *)

Lemma filter_snoc {A} (f : A -> bool) (l : list A) (x : A) :
  List.filter f (l ++ [x]) = List.filter f l ++ (if f x then [x] else []).
Proof. rewrite List.filter_app. cbn. by destruct (f x). Qed.

(** What a loop does with a classifier is what it does without one, less the
    candidates the classifier rejects; it raises where the other raises. *)
Lemma generic_links_filter relevant comp links :
  forall jobs all t,
    jobs = List.filter (fun job => relevant (title job)) all ->
    generic_links relevant comp links jobs t =
    let r := generic_links (fun _ => true) comp links all t in
    (r.1, (List.filter (fun job => relevant (title job)) r.2.1, r.2.2)).
Proof.
  induction links as [|link rest IH]; intros jobs all t H; [by rewrite H|].
  cbn [generic_links]. fold (resolve comp (bs4.get link "href" "")).
  cbv zeta in IH |- *.
  loop_cases; try (by rewrite H); apply IH; try assumption;
    rewrite filter_snoc; cbn [title];
    match goal with H : relevant _ = _ |- _ => rewrite H end;
    rewrite ?app_nil_r; congruence.
Qed.

Lemma microsoft_cards_filter relevant comp cards :
  forall jobs all t,
    jobs = List.filter (fun job => relevant (title job)) all ->
    microsoft_cards relevant comp cards jobs t =
    let r := microsoft_cards (fun _ => true) comp cards all t in
    (r.1, (List.filter (fun job => relevant (title job)) r.2.1, r.2.2)).
Proof.
  induction cards as [|card rest IH]; intros jobs all t H; [by rewrite H|].
  cbn [microsoft_cards]. cbv zeta in IH |- *.
  loop_cases; try (by rewrite H); apply IH; try assumption;
    rewrite filter_snoc; cbn [title];
    match goal with H : relevant _ = _ |- _ => rewrite H end;
    rewrite ?app_nil_r; congruence.
Qed.

Lemma scrape_generic_using_filter relevant comp s :
  exists all s',
    scrape_generic_using (fun _ => true) comp s = (inr all, s') /\
    scrape_generic_using relevant comp s =
    (inr (List.filter (fun job => relevant (title job)) all), s').
Proof.
  rewrite !scrape_generic_using_run. destruct (page_of comp) as [soup|].
  - unfold generic_extract.
    rewrite (generic_links_filter relevant comp _ [] [] (ticks s) eq_refl).
    destruct (generic_links (fun _ => true) comp _ [] (ticks s)) as [status [all t]].
    by exists all, (set_ticks t s).
  - by exists [], s.
Qed.

Lemma scrape_microsoft_using_filter relevant comp s :
  exists all s',
    scrape_microsoft_using (fun _ => true) comp s = (inr all, s') /\
    scrape_microsoft_using relevant comp s =
    (inr (List.filter (fun job => relevant (title job)) all), s').
Proof.
  rewrite !scrape_microsoft_using_run. destruct (page_of comp) as [soup|].
  - unfold microsoft_extract.
    rewrite (microsoft_cards_filter relevant comp _ [] [] (ticks s) eq_refl).
    destruct (microsoft_cards (fun _ => true) comp _ [] (ticks s)) as [status [all t]].
    by exists all, (set_ticks t s).
  - by exists [], s.
Qed.

(** What [scrape_google] returns comes from text the classifier accepts. *)
Lemma google_extract_relevant relevant comp soup t :
  Forall (fun job =>
            exists text, relevant text = true /\
                         (title job = text \/ title job = Str.take 100 text))
    (google_extract relevant comp soup ([], t)).2.1.
Proof.
  unfold google_extract.
  destruct (bs4.find_all ["div"; "li"] (bs4.class_ job_or_card) soup)
    as [|elem elems] eqn:E.
  - eapply Forall_impl;
      [apply (google_links_candidates relevant comp _ _ [] t (fun _ H => H));
       constructor|].
    intros job (link & _ & Htitle & _ & Hrel). eauto.
  - eapply Forall_impl;
      [apply (google_elements_candidates relevant comp _ _ [] t (fun _ H => H));
       constructor|].
    intros job (el & title_elem & link_elem & _ & _ & _ & Htitle & _ & Hrel). eauto.
Qed.

(** ** The cycle *)

Lemma scrape_all_run self s :
  exists new s1,
    scrape_companies (companies self) [] s = (inr new, s1) /\
    files s1 = files s /\
    novel (seen_jobs s) (seen_jobs s1) new /\
    scrape_all self s =
    match files s !! seen_file self with
    | Some Denied => (inl PermissionError, s1)
    | _ =>
        (inr new,
         set_files (<[seen_file self := Contents (json_dump (seen_jobs s1))]> (files s1)) s1)
    end.
Proof.
  destruct (scrape_companies_spec (companies self) [] s)
    as (new & s1 & Hrun & Hfiles & _ & Hnovel).
  exists new, s1. split; [exact Hrun|]. split; [exact Hfiles|].
  split; [apply Hnovel, novel_refl|].
  unfold scrape_all, bind. rewrite Hrun.
  unfold save_seen_jobs, open_w, ret. rewrite Hfiles.
  by destruct (files s !! seen_file self) as [[|text]|].
Qed.

Lemma scrape_all_returns self s new s' :
  scrape_all self s = (inr new, s') ->
  exists s1,
    scrape_companies (companies self) [] s = (inr new, s1) /\
    novel (seen_jobs s) (seen_jobs s1) new /\
    s' = set_files (<[seen_file self := Contents (json_dump (seen_jobs s1))]> (files s1)) s1.
Proof.
  destruct (scrape_all_run self s) as (new0 & s1 & Hrun & _ & Hnovel & ->).
  intros H. exists s1.
  destruct (files s !! seen_file self) as [[|text]|]; try discriminate;
    injection H as -> <-; (split; [exact Hrun|]); (split; [exact Hnovel|]); reflexivity.
Qed.

(** The cycle as one pass of the dedup step over what the adapters return. *)
Lemma scrape_companies_candidates comps :
  forall acc s, exists t,
    scrape_companies comps acc s =
    (inr (record_new (cycle_candidates comps (ticks s)) (seen_jobs s) acc).2,
     {| seen_jobs := (record_new (cycle_candidates comps (ticks s)) (seen_jobs s) acc).1;
        files := files s;
        ticks := t |}).
Proof.
  induction comps as [|comp rest IH]; intros acc s.
  - exists (ticks s). by destruct s.
  - rewrite scrape_companies_cons. cbn [cycle_candidates]. rewrite record_new_app.
    destruct (IH (record_new (extracted comp (ticks s)).1 (seen_jobs s) acc).2
                {| seen_jobs := (record_new (extracted comp (ticks s)).1 (seen_jobs s) acc).1;
                   files := files s;
                   ticks := (extracted comp (ticks s)).2 |}) as [t Ht].
    exists t. exact Ht.
Qed.

Lemma scrape_all_candidates self s new s' :
  scrape_all self s = (inr new, s') ->
  new = (record_new (cycle_candidates (companies self) (ticks s)) (seen_jobs s) []).2 /\
  seen_jobs s' = (record_new (cycle_candidates (companies self) (ticks s)) (seen_jobs s) []).1.
Proof.
  intros H. apply scrape_all_returns in H as (s1 & Hrun & _ & ->).
  destruct (scrape_companies_candidates (companies self) [] s) as [t Ht].
  rewrite Ht in Hrun. by injection Hrun as <- <-.
Qed.

(** A source without a page is passed over. *)
Lemma extracted_no_page comp t : page_of comp = None -> extracted comp t = ([], t).
Proof. unfold extracted. by intros ->. Qed.

Lemma page_of_error comp : fetch_error comp \/ parse_error comp -> page_of comp = None.
Proof.
  unfold page_of. intros [[e ->] | (response & e & -> & ->)]; reflexivity.
Qed.

Lemma scrape_companies_skip before comp after :
  page_of comp = None ->
  forall acc s,
    scrape_companies (before ++ comp :: after) acc s =
    scrape_companies (before ++ after) acc s.
Proof.
  intros Hpage. induction before as [|first before IH]; intros acc s.
  - cbn [app]. rewrite scrape_companies_cons, extracted_no_page by exact Hpage.
    cbn. by destruct s.
  - cbn [app]. rewrite !scrape_companies_cons. apply IH.
Qed.

Lemma scrape_all_subseteq self s : seen_jobs s ⊆ seen_jobs (scrape_all self s).2.
Proof.
  destruct (scrape_all_run self s) as (new & s1 & _ & _ & (Hsub & _) & ->).
  by destruct (files s !! seen_file self) as [[|text]|].
Qed.

Lemma check_jobs_subseteq self s : seen_jobs s ⊆ seen_jobs (check_jobs self s).2.
Proof.
  unfold check_jobs, try_except, bind, ret.
  pose proof (scrape_all_subseteq self s) as H.
  by destruct (scrape_all self s) as [[e|new] s'].
Qed.

Lemma scheduled_subseteq n self : forall s, seen_jobs s ⊆ seen_jobs (scheduled n self s).2.
Proof.
  induction n as [|n IH]; intros s; [reflexivity|].
  cbn [scheduled]. unfold bind.
  pose proof (check_jobs_subseteq self s) as H.
  destruct (check_jobs self s) as [[e|[]] s'] eqn:E; [exact H|].
  etrans; [exact H | apply IH].
Qed.

(** The exceptions [load_seen_jobs] does not catch leave it. *)
Lemma load_seen_jobs_propagates self s text e :
  files s !! seen_file self = Some (Contents text) ->
  Str.utf8 text = true ->
  json_load text = inl e ->
  e <> FileNotFoundError ->
  e <> JSONDecodeError ->
  load_seen_jobs self s = (inl e, s).
Proof.
  unfold load_seen_jobs, try_except, bind, open_r, raise.
  intros -> -> -> H1 H2. by destruct e.
Qed.

Lemma load_seen_jobs_undecodable self s bytes :
  files s !! seen_file self = Some (Contents bytes) ->
  Str.utf8 bytes = false ->
  load_seen_jobs self s = (inl UnicodeDecodeError, s).
Proof.
  unfold load_seen_jobs, try_except, bind, open_r, raise.
  by intros -> ->.
Qed.

(** On a missing file, and on a text that [json.load] rejects with
    [JSONDecodeError], [load_seen_jobs] returns and leaves the empty
    Seen-Set. *)
Lemma load_seen_jobs_resilient self s :
  files s !! seen_file self = None \/
  (exists text, files s !! seen_file self = Some (Contents text) /\
                Str.utf8 text = true /\
                json_load text = inl JSONDecodeError) ->
  load_seen_jobs self s = (inr tt, set_seen_jobs ∅ s).
Proof.
  unfold load_seen_jobs, try_except, bind, open_r, raise.
  intros [-> | (text & -> & -> & ->)]; reflexivity.
Qed.

(** ** Injectivity of the fingerprinted string *)

Lemma contains_hyphen_cons (c : ascii) (s : string) :
  Str.contains "-" (String c s) = false ->
  c <> "-"%char /\ Str.contains "-" s = false.
Proof.
  cbn [Str.contains Str.startswith]. intros H.
  apply orb_false_iff in H as [Hc Hs]. split; [|exact Hs].
  intros ->. cbn in Hc. by destruct s.
Qed.

Lemma hyphen_split (a b x y : string) :
  Str.contains "-" a = false ->
  Str.contains "-" b = false ->
  a +:+ "-" +:+ x = b +:+ "-" +:+ y ->
  a = b /\ x = y.
Proof.
  revert b. induction a as [|c a IH]; intros [|d b] Ha Hb H.
  - change (String "-" x = String "-" y) in H.
    split; [reflexivity | congruence].
  - change (String "-" x = String d (b +:+ "-" +:+ y)) in H.
    apply contains_hyphen_cons in Hb as [Hd _]. congruence.
  - change (String c (a +:+ "-" +:+ x) = String "-" y) in H.
    apply contains_hyphen_cons in Ha as [Hc _]. congruence.
  - change (String c (a +:+ "-" +:+ x) = String d (b +:+ "-" +:+ y)) in H.
    apply contains_hyphen_cons in Ha as [_ Ha].
    apply contains_hyphen_cons in Hb as [_ Hb].
    assert (Hcd : c = d) by congruence.
    assert (Htl : a +:+ "-" +:+ x = b +:+ "-" +:+ y) by congruence.
    destruct (IH b Ha Hb Htl) as [Hab Hxy]. split; congruence.
Qed.

Lemma job_string_inj (p1 p2 : Job) :
  Str.contains "-" (company p1) = false ->
  Str.contains "-" (title p1) = false ->
  Str.contains "-" (company p2) = false ->
  Str.contains "-" (title p2) = false ->
  job_string p1 = job_string p2 ->
  identity p1 = identity p2.
Proof.
  unfold job_string, identity. intros Hc1 Ht1 Hc2 Ht2 H.
  apply hyphen_split in H as [-> H]; [|assumption..].
  apply hyphen_split in H as [-> ->]; [|assumption..].
  reflexivity.
Qed.

(** ** Collisions of the digest

    A digest has 32 characters, so the fingerprints of the postings
    [numbered] cannot all differ. *)

Lemma le_bytes_length (k : nat) (n : Z) : length (MD5.le_bytes k n) = k.
Proof. revert n. induction k as [|k IH]; intros n; cbn [MD5.le_bytes length]; by rewrite ?IH. Qed.

Lemma hex_length (bs : list Z) : String.length (MD5.hex bs) = 2 * length bs.
Proof.
  induction bs as [|b bs IH]; [reflexivity|].
  cbn [MD5.hex String.length length]. rewrite IH. lia.
Qed.

Lemma hexdigest_length (s : string) : String.length (MD5.hexdigest s) = 32.
Proof.
  unfold MD5.hexdigest, MD5.digest. cbv zeta.
  destruct (fold_left MD5.compress _ MD5.init) as [[[a b] c] d].
  rewrite hex_length, !length_app, !le_bytes_length. reflexivity.
Qed.

Lemma all_ascii_complete (c : ascii) : c ∈ all_ascii.
Proof.
  unfold all_ascii. apply list_elem_of_In, in_map_iff.
  exists (nat_of_ascii c). split; [apply ascii_nat_embedding|].
  apply in_seq. pose proof (nat_ascii_bounded c). lia.
Qed.

Lemma all_strings_complete (s : string) : s ∈ all_strings (String.length s).
Proof.
  induction s as [|c s IH]; cbn [String.length all_strings]; [by left|].
  apply list_elem_of_In, in_flat_map. exists c.
  split; [apply list_elem_of_In, all_ascii_complete|].
  apply in_map, list_elem_of_In, IH.
Qed.

Lemma copies_length (n : nat) (c : ascii) : String.length (copies n c) = n.
Proof. induction n as [|n IH]; cbn; by rewrite ?IH. Qed.

Lemma numbered_inj (i j : nat) : identity (numbered i) = identity (numbered j) -> i = j.
Proof.
  unfold identity, numbered. cbn [company title url]. intros H.
  assert (Hurl : copies i "x" = copies j "x").
  { injection H as H. revert H.
    generalize (copies i "x"), (copies j "x"). intros u v H.
    cbv [String.append] in H. congruence. }
  by rewrite <- (copies_length i "x"), Hurl, copies_length.
Qed.

(** Two postings without hyphens in company and title, with different
    identifying tuples and the same fingerprint, exist. *)
Lemma get_job_id_collision_without_hyphen :
  exists p1 p2 : Job,
    Str.contains "-" (company p1) = false /\
    Str.contains "-" (title p1) = false /\
    Str.contains "-" (company p2) = false /\
    Str.contains "-" (title p2) = false /\
    identity p1 <> identity p2 /\
    get_job_id p1 = get_job_id p2.
Proof.
  set (digests := all_strings 32).
  set (ids := map (fun n => get_job_id (numbered n)) (seq 0 (S (length digests)))).
  destruct (list_pigeonhole ids digests) as (i & j & id & Hij & Hi & Hj).
  - intros id Hid. apply list_elem_of_In, in_map_iff in Hid as (n & <- & _).
    unfold digests, get_job_id. rewrite <- (hexdigest_length (job_string (numbered n))).
    apply all_strings_complete.
  - unfold ids. rewrite length_map, length_seq. lia.
  - unfold ids in Hi, Hj.
    apply list_lookup_fmap_Some in Hi as (n & Hid & Hn).
    apply list_lookup_fmap_Some in Hj as (m & Hid' & Hm).
    apply lookup_seq in Hn as [-> _]. apply lookup_seq in Hm as [-> _].
    exists (numbered (0 + i)), (numbered (0 + j)).
    do 4 (split; [reflexivity|]).
    split; [|congruence].
    intros H. apply numbered_inj in H. lia.
Qed.

(** ** The statements of the specification *)

(** C1 (as the code has it). Every adapter applies the classifier itself,
    before it returns: [scrape_generic] and [scrape_microsoft] return exactly
    those of the candidates they extract whose title
    [is_backend_internship] accepts, in the order of extraction, and every
    posting [scrape_google] returns was built from a text that
    [is_backend_internship] accepts (the title, or the link text of which the
    title is the first 100 characters).  The orchestrator does not classify:
    its dedup step records every posting an adapter hands it, under the
    posting's fingerprint, unless that fingerprint is recorded already. *)
Theorem adapters_apply_classifier (comp : Company) (s : State) :
  (exists all s',
      scrape_generic_using (fun _ => true) comp s = (inr all, s') /\
      scrape_generic comp s =
      (inr (List.filter (fun job => is_backend_internship (title job)) all), s')) /\
  (exists all s',
      scrape_microsoft_using (fun _ => true) comp s = (inr all, s') /\
      scrape_microsoft comp s =
      (inr (List.filter (fun job => is_backend_internship (title job)) all), s')) /\
  (exists jobs s',
      scrape_google comp s = (inr jobs, s') /\
      Forall (fun job =>
                exists text, is_backend_internship text = true /\
                             (title job = text \/ title job = Str.take 100 text))
        jobs) /\
  (forall jobs all_new_jobs,
      exists new seen,
        filter_seen jobs all_new_jobs s = (inr new, set_seen_jobs seen s) /\
        Forall (fun job => is_Some (seen !! get_job_id job)) jobs).
Proof.
  split; [apply scrape_generic_using_filter|].
  split; [apply scrape_microsoft_using_filter|].
  split.
  - unfold scrape_google. rewrite scrape_google_using_run.
    destruct (page_of comp) as [soup|].
    + pose proof (google_extract_relevant is_backend_internship comp soup (ticks s)) as H.
      destruct (google_extract is_backend_internship comp soup ([], ticks s))
        as [status [jobs t]].
      by exists jobs, (set_ticks t s).
    + exists [], s. split; [reflexivity | constructor].
  - intros jobs all_new_jobs. unfold filter_seen.
    pose proof (record_new_recorded jobs (seen_jobs s) all_new_jobs) as H.
    destruct (record_new jobs (seen_jobs s) all_new_jobs) as [seen new].
    by exists new, seen.
Qed.

(** C2. [is_backend_internship title] is true exactly when some
    internship-signal term and some topic term are each a substring of the
    lowercased title; the four titles of the specification's truth table are
    classified as it says. *)
Theorem is_backend_internship_iff :
  (forall title : string,
      is_backend_internship title = true <->
      Exists (fun term => Str.substring_of term (Str.lower title)) internship_terms /\
      Exists (fun term => Str.substring_of term (Str.lower title)) keywords) /\
  (forall title : string,
      is_backend_internship title = true <->
      Exists (fun term => Str.substring_of term (Str.lower title)) spec_internship_terms /\
      Exists (fun term => Str.substring_of term (Str.lower title)) spec_topic_terms) /\
  is_backend_internship "Backend Engineering Intern" = true /\
  is_backend_internship "New Grad Cloud Developer" = true /\
  is_backend_internship "Frontend Intern" = false /\
  is_backend_internship "Backend Software Engineer" = false.
Proof.
  assert (Hiff : forall terms topics title,
             any (fun term => Str.contains term (Str.lower title)) terms &&
             any (fun term => Str.contains term (Str.lower title)) topics = true <->
             Exists (fun term => Str.substring_of term (Str.lower title)) terms /\
             Exists (fun term => Str.substring_of term (Str.lower title)) topics).
  { intros terms topics title. rewrite andb_true_iff, !any_Exists.
    split; intros [H1 H2]; split;
      (eapply Exists_impl; [eassumption|]); intros term; cbv beta;
      apply contains_spec. }
  split; [intros title; apply Hiff|].
  split; [|repeat (apply conj; [vm_compute; reflexivity|]); vm_compute; reflexivity].
  intros title. rewrite <- Hiff. unfold is_backend_internship. cbv zeta.
  by rewrite keywords_as_specified.
Qed.

(** C3 (as the code has it). The fingerprint is a function of the
    identifying tuple: postings with the same company, title and link have
    the same fingerprint, whatever their other fields.  It is the MD5 digest
    of the three fields joined by hyphens; when neither company nor title of
    two postings contains a hyphen and MD5 does not collide on the two joined
    strings, different tuples have different fingerprints. *)
Theorem get_job_id_deterministic (p1 p2 : Job) :
  (identity p1 = identity p2 -> get_job_id p1 = get_job_id p2) /\
  (Str.contains "-" (company p1) = false ->
   Str.contains "-" (title p1) = false ->
   Str.contains "-" (company p2) = false ->
   Str.contains "-" (title p2) = false ->
   (MD5.hexdigest (job_string p1) = MD5.hexdigest (job_string p2) ->
    job_string p1 = job_string p2) ->
   identity p1 <> identity p2 ->
   get_job_id p1 <> get_job_id p2).
Proof.
  split; [apply get_job_id_identity|].
  intros Hc1 Ht1 Hc2 Ht2 Hmd5 Hne Heq. apply Hne.
  apply job_string_inj; try assumption. by apply Hmd5.
Qed.

(** C4 (as the code has it). When a cycle returns, its list is non-empty
    exactly when one of the postings the adapters returned in that cycle has
    a fingerprint that was not in the Seen-Set; and running the cycle again
    on the state it leaves, against the same pages, returns the empty list
    and leaves the Seen-Set as it is, whatever the clock shows. *)
Theorem scrape_all_twice (self : JobScraper) (s s1 : State) (new : list Job) :
  scrape_all self s = (inr new, s1) ->
  (new <> [] <->
   exists job,
     job ∈ cycle_candidates (companies self) (ticks s) /\
     seen_jobs s !! get_job_id job = None) /\
  (exists s2, scrape_all self s1 = (inr [], s2) /\ seen_jobs s2 = seen_jobs s1).
Proof.
  intros H. pose proof (scrape_all_candidates _ _ _ _ H) as [Hnew _].
  apply scrape_all_returns in H as (sa & Hrun & Hnovel & ->).
  split.
  - destruct Hnovel as (_ & _ & Hin & _). split.
    + intros Hne. destruct new as [|job rest]; [done|].
      exists job. split; [|apply Hin; by left].
      destruct (record_new_sublist (cycle_candidates (companies self) (ticks s))
                  (seen_jobs s) []) as (kept & Hkept & Hsub).
      rewrite <- Hnew in Hkept. cbn [app] in Hkept.
      apply (elem_of_sublist (job :: rest)); [by left | by rewrite Hkept].
    + intros (job & Hjob & Hunseen) ->.
      destruct (record_new_complete _ (seen_jobs s) [] job Hjob Hunseen)
        as (job' & Hjob' & _).
      rewrite <- Hnew in Hjob'. by apply elem_of_nil in Hjob'.
  - set (s1 := set_files _ sa).
    destruct (scrape_companies_again _ _ _ _ _ Hrun [] s1) as [t Ht];
      [reflexivity|].
    exists (set_files (<[seen_file self := Contents (json_dump (seen_jobs sa))]> (files s1))
              (set_ticks t s1)).
    split; [|reflexivity].
    unfold scrape_all, bind. rewrite Ht.
    unfold save_seen_jobs, open_w, ret. cbn.
    by rewrite lookup_insert_eq.
Qed.

(** C5. A cycle never removes or changes an entry of the Seen-Set: whatever
    is stored under a fingerprint before [scrape_all] is stored under it
    afterwards, whether the call returns or raises; so it is after each of
    the steps of a cycle, the scraping of one source, the dedup of its
    postings and the save; and so it is after any number of scheduled
    cycles. *)
Theorem seen_jobs_monotone (self : JobScraper) (s : State) (job_id : string) (job : Job) :
  seen_jobs s !! job_id = Some job ->
  seen_jobs (scrape_all self s).2 !! job_id = Some job /\
  (forall comp, seen_jobs (scrape_company comp s).2 !! job_id = Some job) /\
  (forall jobs all_new_jobs,
      seen_jobs (filter_seen jobs all_new_jobs s).2 !! job_id = Some job) /\
  seen_jobs (save_seen_jobs self s).2 !! job_id = Some job /\
  (forall n, seen_jobs (scheduled n self s).2 !! job_id = Some job).
Proof.
  intros H. split; [|split; [|split; [|split]]].
  - eapply lookup_weaken; [exact H | apply scrape_all_subseteq].
  - intros comp. by rewrite scrape_company_extracted.
  - intros jobs all_new_jobs. unfold filter_seen.
    pose proof (record_new_subseteq jobs (seen_jobs s) all_new_jobs) as Hsub.
    destruct (record_new jobs (seen_jobs s) all_new_jobs) as [seen new].
    eapply lookup_weaken; eassumption.
  - unfold save_seen_jobs, open_w.
    by destruct (files s !! seen_file self) as [[|text]|].
  - intros n. eapply lookup_weaken; [exact H | apply scheduled_subseteq].
Qed.

(** C6 (as the code has it). [scrape_generic] looks only at the first 30
    of the anchors that carry an [href]: two pages with the same first 30
    such anchors give the same candidates, and at most 30 of them.  Every
    posting it returns comes from one of these anchors, has the stripped text
    of the anchor as title, of a length in [10,150), in which a term of the
    lexicon occurs once lowercased, and, when the [href] does not start with
    [http], has as link what [urljoin(base_url, href)] returns. *)
Theorem scrape_generic_candidates (comp : Company) (s s' : State) (jobs : list Job) :
  scrape_generic comp s = (inr jobs, s') ->
  (forall relevant soup soup' locals,
      take 30 (bs4.find_all ["a"] bs4.href_True soup) =
      take 30 (bs4.find_all ["a"] bs4.href_True soup') ->
      generic_extract relevant comp soup locals =
      generic_extract relevant comp soup' locals) /\
  length jobs <= 30 /\
  forall job, job ∈ jobs ->
    exists soup link,
      page_of comp = Some soup /\
      link ∈ take 30 (bs4.find_all ["a"] bs4.href_True soup) /\
      title job = Str.strip (bs4.get_text link) /\
      10 <= String.length (title job) < 150 /\
      Exists (fun term => Str.substring_of term (Str.lower (title job)))
        [ "intern"; "software"; "developer"; "engineer" ] /\
      (Str.startswith "http" (bs4.get link "href" "") = false ->
       urljoin (base_url comp) (bs4.get link "href" "") = inr (url job)).
Proof.
  unfold scrape_generic. rewrite scrape_generic_using_run. intros H.
  split.
  { intros relevant soup soup' [jobs0 t] Heq. unfold generic_extract. by rewrite Heq. }
  destruct (page_of comp) as [soup|]; cycle 1.
  { injection H as <- _. split; [cbn; lia|]. intros job Hjob. by apply elem_of_nil in Hjob. }
  unfold generic_extract in H.
  set (links := take 30 (bs4.find_all ["a"] bs4.href_True soup)) in *.
  pose proof (generic_links_length is_backend_internship comp links [] (ticks s)) as Hlen.
  pose proof (generic_links_candidates is_backend_internship comp links links []
                (ticks s) (fun _ Hl => Hl) (List.Forall_nil _)) as Hcand.
  destruct (generic_links is_backend_internship comp links [] (ticks s))
    as [status [jobs0 t]].
  injection H as <- _. cbn [fst snd length] in Hlen, Hcand.
  split.
  - etrans; [exact Hlen|]. unfold links. rewrite length_take. lia.
  - intros job Hjob. rewrite Forall_forall in Hcand.
    destruct (Hcand job Hjob) as (link & Hlink & Htitle & Hlength & Hterm & Hurl & _).
    exists soup, link. repeat split; try assumption; try lia.
    intros Hhttp. unfold resolve in Hurl. by rewrite Hhttp in Hurl.
Qed.

(** C7 (as the code has it). When the page of [scrape_google] has
    containers, every posting returned comes from one of the first 15: its
    title is the whole stripped text of the title element of the container,
    of any length, and its link is what [urljoin(base_url, href)] returns for
    the first anchor of the container.  When the page has none, at most 10
    postings are returned, each from one of the first 30 anchors with an
    [href]: its title is the first 100 characters of the stripped text of the
    anchor and, when the [href] does not start with [http], its link is what
    [urljoin(base_url, href)] returns. *)
Theorem scrape_google_candidates (comp : Company) (soup : node) (s s' : State)
    (jobs : list Job) :
  page_of comp = Some soup ->
  scrape_google comp s = (inr jobs, s') ->
  let job_elements := bs4.find_all ["div"; "li"] (bs4.class_ job_or_card) soup in
  (job_elements <> [] ->
   forall job, job ∈ jobs ->
     exists elem title_elem link_elem,
       elem ∈ take 15 job_elements /\
       bs4.find ["h3"; "h4"; "a"; "span"] (bs4.class_ title_class) elem = Some title_elem /\
       bs4.find ["a"] bs4.href_True elem = Some link_elem /\
       title job = Str.strip (bs4.get_text title_elem) /\
       urljoin (base_url comp) (bs4.get link_elem "href" "") = inr (url job)) /\
  (job_elements = [] ->
   length jobs <= 10 /\
   forall job, job ∈ jobs ->
     exists link,
       link ∈ take 30 (bs4.find_all ["a"] bs4.href_True soup) /\
       title job = Str.take 100 (Str.strip (bs4.get_text link)) /\
       String.length (title job) <= 100 /\
       (Str.startswith "http" (bs4.get link "href" "") = false ->
        urljoin (base_url comp) (bs4.get link "href" "") = inr (url job))).
Proof.
  intros Hpage. unfold scrape_google. rewrite scrape_google_using_run, Hpage.
  unfold google_extract. intros H. cbv zeta.
  destruct (bs4.find_all ["div"; "li"] (bs4.class_ job_or_card) soup)
    as [|elem elems] eqn:E.
  - split; [congruence|]. intros _.
    set (links := take 30 (bs4.find_all ["a"] bs4.href_True soup)) in *.
    pose proof (google_links_length is_backend_internship comp links [] (ticks s)) as Hlen.
    pose proof (google_links_candidates is_backend_internship comp links links []
                  (ticks s) (fun _ Hl => Hl) (List.Forall_nil _)) as Hcand.
    destruct (google_links is_backend_internship comp links [] (ticks s))
      as [status [jobs0 t]].
    injection H as <- _. cbn [fst snd length] in Hlen, Hcand.
    split; [apply Hlen; lia|].
    intros job Hjob. rewrite Forall_forall in Hcand.
    destruct (Hcand job Hjob) as (link & Hlink & Htitle & Hurl & _).
    exists link. repeat split; try assumption.
    + rewrite Htitle. apply take_length.
    + intros Hhttp. unfold resolve in Hurl. by rewrite Hhttp in Hurl.
  - split; [|discriminate]. intros _.
    set (elements := take 15 (elem :: elems)) in *.
    pose proof (google_elements_candidates is_backend_internship comp elements elements []
                  (ticks s) (fun _ He => He) (List.Forall_nil _)) as Hcand.
    destruct (google_elements is_backend_internship comp elements [] (ticks s))
      as [status [jobs0 t]].
    injection H as <- _. cbn [fst snd] in Hcand.
    intros job Hjob. rewrite Forall_forall in Hcand.
    destruct (Hcand job Hjob)
      as (el & title_elem & link_elem & Hel & Htitle_elem & Hlink_elem & Htitle & Hurl & _).
    by exists el, title_elem, link_elem.
Qed.

(** C9 (as the code has it). No adapter raises: each returns a list on every
    page and in every state.  When the request or the parser raises, the list
    is empty and the state is untouched, and a cycle in which one source so
    fails does what the cycle without that source does, so the sources after
    it are scraped and their new postings recorded and returned.  When the
    request returns an answer, of whatever status, and the parser returns,
    the adapter returns the list as the extraction of the page leaves it: if
    the extraction raises, the candidates appended before. *)
Theorem extraction_never_raises (comp : Company) (s : State) :
  ((exists jobs s', scrape_google comp s = (inr jobs, s')) /\
   (exists jobs s', scrape_microsoft comp s = (inr jobs, s')) /\
   (exists jobs s', scrape_generic comp s = (inr jobs, s'))) /\
  (fetch_error comp \/ parse_error comp ->
   scrape_google comp s = (inr [], s) /\
   scrape_microsoft comp s = (inr [], s) /\
   scrape_generic comp s = (inr [], s) /\
   forall path before after,
     scrape_all {| seen_file := path; companies := before ++ comp :: after |} s =
     scrape_all {| seen_file := path; companies := before ++ after |} s) /\
  (forall response soup,
     http (search_url comp) = inr response ->
     BeautifulSoup (requests.text response) = inr soup ->
     (scrape_google comp s).1 =
       inr (google_extract is_backend_internship comp soup ([], ticks s)).2.1 /\
     (scrape_microsoft comp s).1 =
       inr (microsoft_extract is_backend_internship comp soup ([], ticks s)).2.1 /\
     (scrape_generic comp s).1 =
       inr (generic_extract is_backend_internship comp soup ([], ticks s)).2.1).
Proof.
  unfold scrape_google, scrape_microsoft, scrape_generic.
  rewrite scrape_google_using_run, scrape_microsoft_using_run, scrape_generic_using_run.
  split; [|split].
  - destruct (page_of comp) as [soup|]; [|by repeat split; exists [], s].
    repeat split.
    + destruct (google_extract _ comp soup ([], ticks s)) as [status [jobs t]].
      by eexists _, _.
    + destruct (microsoft_extract _ comp soup ([], ticks s)) as [status [jobs t]].
      by eexists _, _.
    + destruct (generic_extract _ comp soup ([], ticks s)) as [status [jobs t]].
      by eexists _, _.
  - intros Herr. apply page_of_error in Herr. rewrite Herr.
    do 3 (split; [reflexivity|]).
    intros path before after. unfold scrape_all, bind. cbn [companies seen_file].
    by rewrite scrape_companies_skip.
  - intros response soup Hanswer Hsoup.
    assert (Hpage : page_of comp = Some soup)
      by (unfold page_of; by rewrite Hanswer, Hsoup).
    rewrite Hpage. repeat split.
    + by destruct (google_extract _ comp soup ([], ticks s)) as [status [jobs t]].
    + by destruct (microsoft_extract _ comp soup ([], ticks s)) as [status [jobs t]].
    + by destruct (generic_extract _ comp soup ([], ticks s)) as [status [jobs t]].
Qed.

(** C10. The postings a cycle returns have pairwise different fingerprints,
    none of which was in the Seen-Set before; each is stored in the Seen-Set
    under its fingerprint when the call returns; and the Seen-Set has grown
    by one entry for each of them. *)
Theorem scrape_all_novel (self : JobScraper) (s s' : State) (new : list Job) :
  scrape_all self s = (inr new, s') ->
  NoDup (map get_job_id new) /\
  (forall job, job ∈ new ->
     seen_jobs s !! get_job_id job = None /\
     seen_jobs s' !! get_job_id job = Some job) /\
  size (seen_jobs s') = size (seen_jobs s) + length new.
Proof.
  intros H. apply scrape_all_returns in H as (s1 & _ & Hnovel & ->).
  destruct Hnovel as (_ & Hnodup & Hin & Hsize). by repeat split; try apply Hin.
Qed.

(** ** Further properties of the code *)

(** *** The classifier *)

Lemma lower_ascii_idempotent (c : ascii) :
  Str.lower_ascii (Str.lower_ascii c) = Str.lower_ascii c.
Proof. destruct c as [[] [] [] [] [] [] [] []]; reflexivity. Qed.

Lemma lower_idempotent (s : string) : Str.lower (Str.lower s) = Str.lower s.
Proof.
  induction s as [|c s IH]; [reflexivity|].
  cbn [Str.lower]. by rewrite lower_ascii_idempotent, IH.
Qed.

Lemma lower_app (a b : string) : Str.lower (a +:+ b) = Str.lower a +:+ Str.lower b.
Proof.
  induction a as [|c a IH]; [reflexivity|].
  change (Str.lower (String c (a +:+ b)) =
          String (Str.lower_ascii c) (Str.lower a +:+ Str.lower b)).
  cbn [Str.lower]. by rewrite IH.
Qed.

Lemma substring_of_lower (a b : string) :
  Str.substring_of a b -> Str.substring_of (Str.lower a) (Str.lower b).
Proof.
  intros (pre & post & ->). exists (Str.lower pre), (Str.lower post).
  by rewrite !lower_app.
Qed.

Lemma any_contains_substring (terms : list string) (a b : string) :
  Str.substring_of a b ->
  any (fun term => Str.contains term a) terms = true ->
  any (fun term => Str.contains term b) terms = true.
Proof.
  intros Hab. rewrite !any_Exists. intros H.
  eapply Exists_impl; [exact H|]. intros term Hterm. cbv beta in *.
  apply contains_spec. apply contains_spec in Hterm.
  by apply (substring_of_trans _ a).
Qed.

Lemma contains_longer (short long text : string) :
  Str.substring_of short long ->
  Str.contains long text = true -> Str.contains short text = true.
Proof.
  intros Hsub H. apply contains_spec. apply contains_spec in H.
  by apply (substring_of_trans _ long).
Qed.

(** X1. The classifier does not look at the case of letters: a title and
    its lowercased form are classified alike, and so are two titles with the
    same lowercased form. *)
Theorem is_backend_internship_case_insensitive (job_title : string) :
  is_backend_internship (Str.lower job_title) = is_backend_internship job_title /\
  forall other : string,
    Str.lower other = Str.lower job_title ->
    is_backend_internship other = is_backend_internship job_title.
Proof.
  unfold is_backend_internship. cbv zeta. split.
  - by rewrite lower_idempotent.
  - by intros other ->.
Qed.

(** X2. Text around a relevant title does not make it irrelevant: when the
    classifier accepts a title it accepts every title of which that title is
    a part. *)
Theorem is_backend_internship_monotone (job_title longer : string) :
  Str.substring_of job_title longer ->
  is_backend_internship job_title = true ->
  is_backend_internship longer = true.
Proof.
  intros Hsub. apply substring_of_lower in Hsub.
  unfold is_backend_internship. cbv zeta. rewrite !andb_true_iff.
  intros [H1 H2]. split; by apply (any_contains_substring _ _ _ Hsub).
Qed.

(** X3. Four of the terms of the classifier never decide: [internship]
    occurs only where [intern] does, [golang] only where [go] does, [nodejs]
    only where [node] does and [nosql] only where [sql] does.  The classifier
    is the test on the two lists without them. *)
Theorem is_backend_internship_redundant_terms (job_title : string) :
  is_backend_internship job_title =
  any (fun term => Str.contains term (Str.lower job_title))
    [ "intern"; "university graduate"; "new grad"; "student" ] &&
  any (fun term => Str.contains term (Str.lower job_title))
    [ "backend"; "back-end"; "java"; "python"; "go"; "node"; "spring";
      "django"; "flask"; "api"; "microservice"; "database"; "sql"; "aws";
      "azure"; "gcp"; "cloud"; "distributed"; "server"; "software engineer";
      "developer" ].
Proof.
  unfold is_backend_internship. cbv zeta.
  generalize (Str.lower job_title). intros text.
  cbn [any existsb internship_terms keywords].
  assert (H1 : Str.contains "internship" text = true -> Str.contains "intern" text = true)
    by (apply contains_longer; by exists "", "ship").
  assert (H2 : Str.contains "golang" text = true -> Str.contains "go" text = true)
    by (apply contains_longer; by exists "", "lang").
  assert (H3 : Str.contains "nodejs" text = true -> Str.contains "node" text = true)
    by (apply contains_longer; by exists "", "js").
  assert (H4 : Str.contains "nosql" text = true -> Str.contains "sql" text = true)
    by (apply contains_longer; by exists "no", "").
  destruct (Str.contains "intern" text), (Str.contains "internship" text);
    try (specialize (H1 eq_refl); discriminate H1);
    destruct (Str.contains "go" text), (Str.contains "golang" text);
    try (specialize (H2 eq_refl); discriminate H2);
    destruct (Str.contains "node" text), (Str.contains "nodejs" text);
    try (specialize (H3 eq_refl); discriminate H3);
    destruct (Str.contains "sql" text), (Str.contains "nosql" text);
    try (specialize (H4 eq_refl); discriminate H4);
    cbn [orb andb]; reflexivity.
Qed.

(** *** The fingerprint *)

Lemma hex_digit_range (n : Z) :
  (0 <= n < 16)%Z ->
  MD5.hex_digit n ∈ String.list_ascii_of_string "0123456789abcdef".
Proof.
  intros H. replace n with (Z.of_nat (Z.to_nat n)) by lia.
  assert (Hk : Z.to_nat n < 16) by lia.
  revert Hk. generalize (Z.to_nat n). clear. intros k Hk.
  do 16 (destruct k as [|k];
         [vm_compute; repeat first [apply list_elem_of_here | apply list_elem_of_further]|]).
  lia.
Qed.

Lemma hex_range (bs : list Z) :
  Forall (fun b => (0 <= b < 256)%Z) bs ->
  Forall (fun c => c ∈ String.list_ascii_of_string "0123456789abcdef")
    (String.list_ascii_of_string (MD5.hex bs)).
Proof.
  induction 1 as [|b bs Hb _ IH]; [constructor|].
  cbn [MD5.hex String.list_ascii_of_string].
  constructor; [|constructor; [|exact IH]]; apply hex_digit_range.
  - split; [apply Z.div_pos; lia | apply Z.div_lt_upper_bound; lia].
  - apply Z.mod_pos_bound. lia.
Qed.

Lemma le_bytes_range (k : nat) (n : Z) :
  Forall (fun b => (0 <= b < 256)%Z) (MD5.le_bytes k n).
Proof.
  revert n. induction k as [|k IH]; intros n; cbn [MD5.le_bytes]; constructor.
  - apply Z.mod_pos_bound. lia.
  - apply IH.
Qed.

Lemma hexdigest_range (s : string) :
  Forall (fun c => c ∈ String.list_ascii_of_string "0123456789abcdef")
    (String.list_ascii_of_string (MD5.hexdigest s)).
Proof.
  unfold MD5.hexdigest, MD5.digest. cbv zeta.
  destruct (fold_left MD5.compress _ MD5.init) as [[[a b] c] d].
  apply hex_range. rewrite !Forall_app.
  repeat split; apply le_bytes_range.
Qed.

(** X4. A fingerprint is a text of 32 characters, each a digit or a letter
    from [a] to [f]; it holds no hyphen and no upper-case letter, whatever
    the company, title and link of the posting. *)
Theorem get_job_id_format (job : Job) :
  String.length (get_job_id job) = 32 /\
  Forall (fun c => c ∈ String.list_ascii_of_string "0123456789abcdef")
    (String.list_ascii_of_string (get_job_id job)).
Proof. split; [apply hexdigest_length | apply hexdigest_range]. Qed.

(** *** The loops of the adapters, continued *)

Lemma microsoft_cards_length relevant comp cards :
  forall jobs t,
    length (microsoft_cards relevant comp cards jobs t).2.1 <= length jobs + length cards.
Proof.
  induction cards as [|card rest IH]; intros jobs t; cbn [microsoft_cards length].
  - cbn [fst snd]. lia.
  - loop_cases; cbn [fst snd]; try lia;
      match goal with
      | |- context [microsoft_cards _ _ _ ?j ?t'] => specialize (IH j t')
      end;
      rewrite ?length_app in IH; cbn [length] in IH; lia.
Qed.

Lemma google_elements_length relevant comp elems :
  forall jobs t,
    length (google_elements relevant comp elems jobs t).2.1 <= length jobs + length elems.
Proof.
  induction elems as [|elem rest IH]; intros jobs t; cbn [google_elements length].
  - cbn [fst snd]. lia.
  - loop_cases; cbn [fst snd]; try lia;
      match goal with
      | |- context [google_elements _ _ _ ?j ?t'] => specialize (IH j t')
      end;
      rewrite ?length_app in IH; cbn [length] in IH; lia.
Qed.

Lemma company_extract_length comp soup t :
  length (company_extract comp soup ([], t)).2.1 <= cap comp.
Proof.
  unfold company_extract, cap, google_extract, microsoft_extract, generic_extract.
  destruct (String.eqb (type comp) "google").
  - destruct (bs4.find_all ["div"; "li"] (bs4.class_ job_or_card) soup) as [|elem elems].
    + etrans; [apply google_links_length; cbn; lia | lia].
    + etrans; [apply google_elements_length|].
      rewrite length_take. cbn [length]. lia.
  - destruct (String.eqb (type comp) "microsoft").
    + etrans; [apply microsoft_cards_length|]. rewrite length_take. cbn [length]. lia.
    + etrans; [apply generic_links_length|]. rewrite length_take. cbn [length]. lia.
Qed.

Lemma extracted_length comp t : length (extracted comp t).1 <= cap comp.
Proof.
  unfold extracted. destruct (page_of comp) as [soup|]; [|cbn; lia].
  apply company_extract_length.
Qed.

Lemma cap_le_30 comp : cap comp <= 30.
Proof. unfold cap. repeat case_match; lia. Qed.

(** The fields an adapter sets by itself. *)

Lemma stamped_later comp t0 t t' job :
  t <= t' -> stamped comp t0 t job -> stamped comp t0 t' job.
Proof.
  intros Hle (Hcompany & Hlocation & stamp & Hstamp & Hdate).
  split; [exact Hcompany|]. split; [exact Hlocation|].
  exists stamp. split; [lia | exact Hdate].
Qed.

Lemma stamped_snoc comp t0 t jobs job :
  t0 <= t ->
  Forall (stamped comp t0 t) jobs ->
  company job = name comp -> location job = "US" -> date_found job = clock t ->
  Forall (stamped comp t0 (S t)) (jobs ++ [job]).
Proof.
  intros Hle Hjobs Hcompany Hlocation Hdate. apply Forall_snoc.
  - eapply Forall_impl; [exact Hjobs|]. intros old. apply stamped_later. lia.
  - split; [exact Hcompany|]. split; [exact Hlocation|]. exists t. split; [lia | exact Hdate].
Qed.

Lemma stamped_tick comp t0 t jobs :
  Forall (stamped comp t0 t) jobs -> Forall (stamped comp t0 (S t)) jobs.
Proof.
  intros Hjobs. eapply Forall_impl; [exact Hjobs|]. intros old. apply stamped_later. lia.
Qed.

(** One step of the induction on a loop: the tests of the body, and the
    induction hypothesis on what the body leaves. *)
Ltac loop_stamped IH :=
  loop_cases; cbn [fst snd];
  try (split; [lia|]);
  first [ assumption
        | by apply stamped_tick
        | by apply stamped_snoc
        | apply IH; first [ lia | assumption | by apply stamped_tick | by apply stamped_snoc ] ].

Lemma generic_links_stamped relevant comp t0 links :
  forall jobs t,
    t0 <= t ->
    Forall (stamped comp t0 t) jobs ->
    t0 <= (generic_links relevant comp links jobs t).2.2 /\
    Forall (stamped comp t0 (generic_links relevant comp links jobs t).2.2)
      (generic_links relevant comp links jobs t).2.1.
Proof.
  induction links as [|link rest IH]; intros jobs t Hle Hjobs; [by split|].
  cbn [generic_links]. fold (resolve comp (bs4.get link "href" "")).
  loop_stamped IH.
Qed.

Lemma google_links_stamped relevant comp t0 links :
  forall jobs t,
    t0 <= t ->
    Forall (stamped comp t0 t) jobs ->
    t0 <= (google_links relevant comp links jobs t).2.2 /\
    Forall (stamped comp t0 (google_links relevant comp links jobs t).2.2)
      (google_links relevant comp links jobs t).2.1.
Proof.
  induction links as [|link rest IH]; intros jobs t Hle Hjobs; [by split|].
  cbn [google_links]. fold (resolve comp (bs4.get link "href" "")).
  loop_stamped IH.
Qed.

Lemma google_elements_stamped relevant comp t0 elems :
  forall jobs t,
    t0 <= t ->
    Forall (stamped comp t0 t) jobs ->
    t0 <= (google_elements relevant comp elems jobs t).2.2 /\
    Forall (stamped comp t0 (google_elements relevant comp elems jobs t).2.2)
      (google_elements relevant comp elems jobs t).2.1.
Proof.
  induction elems as [|elem rest IH]; intros jobs t Hle Hjobs; [by split|].
  cbn [google_elements]. loop_stamped IH.
Qed.

Lemma microsoft_cards_stamped relevant comp t0 cards :
  forall jobs t,
    t0 <= t ->
    Forall (stamped comp t0 t) jobs ->
    t0 <= (microsoft_cards relevant comp cards jobs t).2.2 /\
    Forall (stamped comp t0 (microsoft_cards relevant comp cards jobs t).2.2)
      (microsoft_cards relevant comp cards jobs t).2.1.
Proof.
  induction cards as [|card rest IH]; intros jobs t Hle Hjobs; [by split|].
  cbn [microsoft_cards]. loop_stamped IH.
Qed.

Lemma company_extract_stamped comp soup t :
  t <= (company_extract comp soup ([], t)).2.2 /\
  Forall (stamped comp t (company_extract comp soup ([], t)).2.2)
    (company_extract comp soup ([], t)).2.1.
Proof.
  unfold company_extract, google_extract, microsoft_extract, generic_extract.
  loop_cases;
    first [ by apply google_links_stamped
          | by apply google_elements_stamped
          | by apply microsoft_cards_stamped
          | by apply generic_links_stamped ].
Qed.

Lemma extracted_stamped comp t :
  t <= (extracted comp t).2 /\
  Forall (stamped comp t (extracted comp t).2) (extracted comp t).1.
Proof.
  unfold extracted. destruct (page_of comp) as [soup|]; [|by split].
  apply company_extract_stamped.
Qed.

(** X5. [scrape_microsoft] returns at most 15 postings, each from one of
    the first 15 elements [div] or [article] whose class holds [job] or
    [card]: the title is the stripped text of the first anchor with an [href]
    inside the element, the link is what [urljoin(base_url, href)] returns
    for that anchor, and the classifier accepts the title. *)
Theorem scrape_microsoft_candidates (comp : Company) (s s' : State) (jobs : list Job) :
  scrape_microsoft comp s = (inr jobs, s') ->
  length jobs <= 15 /\
  forall job, job ∈ jobs ->
    exists soup card link,
      page_of comp = Some soup /\
      card ∈ take 15 (bs4.find_all ["div"; "article"] (bs4.class_ job_or_card) soup) /\
      bs4.find ["a"] bs4.href_True card = Some link /\
      title job = Str.strip (bs4.get_text link) /\
      urljoin (base_url comp) (bs4.get link "href" "") = inr (url job) /\
      is_backend_internship (title job) = true.
Proof.
  unfold scrape_microsoft. rewrite scrape_microsoft_using_run. intros H.
  destruct (page_of comp) as [soup|]; cycle 1.
  { injection H as <- _. split; [cbn; lia|]. intros job Hjob. by apply elem_of_nil in Hjob. }
  unfold microsoft_extract in H.
  set (cards := take 15 (bs4.find_all ["div"; "article"] (bs4.class_ job_or_card) soup)) in *.
  pose proof (microsoft_cards_length is_backend_internship comp cards [] (ticks s)) as Hlen.
  pose proof (microsoft_cards_candidates is_backend_internship comp cards cards []
                (ticks s) (fun _ Hc => Hc) (List.Forall_nil _)) as Hcand.
  destruct (microsoft_cards is_backend_internship comp cards [] (ticks s))
    as [status [jobs0 t]].
  injection H as <- _. cbn [fst snd length] in Hlen, Hcand.
  split.
  - etrans; [exact Hlen|]. unfold cards. rewrite length_take. lia.
  - intros job Hjob. rewrite Forall_forall in Hcand.
    destruct (Hcand job Hjob) as (card & link & Hcard & Hlink & Htitle & Hurl & Hrel).
    by exists soup, card, link.
Qed.

(** X6. Whatever the page holds, every posting an adapter returns for a
    source carries the name of that source as company and [US] as location,
    and as date one of the values the clock gave during the call. *)
Theorem scrape_company_fields (comp : Company) (s s' : State) (jobs : list Job) :
  scrape_company comp s = (inr jobs, s') ->
  ticks s <= ticks s' /\
  forall job, job ∈ jobs ->
    company job = name comp /\
    location job = "US" /\
    exists t, ticks s <= t < ticks s' /\ date_found job = clock t.
Proof.
  rewrite scrape_company_extracted. intros H. injection H as <- <-.
  destruct (extracted_stamped comp (ticks s)) as [Hle Hjobs].
  split; [exact Hle|]. intros job Hjob. rewrite Forall_forall in Hjobs.
  exact (Hjobs job Hjob).
Qed.

(** *** The cycle, continued *)

Lemma cycle_candidates_length comps :
  forall t, length (cycle_candidates comps t) <= sum_list_with cap comps.
Proof.
  induction comps as [|comp rest IH]; intros t; cbn [cycle_candidates sum_list_with length];
    [lia|].
  rewrite length_app. pose proof (extracted_length comp t).
  specialize (IH (extracted comp t).2). lia.
Qed.

Lemma sum_list_cap comps : sum_list_with cap comps <= 30 * length comps.
Proof.
  induction comps as [|comp rest IH]; cbn [sum_list_with length]; [lia|].
  pose proof (cap_le_30 comp). lia.
Qed.

(** X7. A cycle returns at most 15 postings for each source of type
    [google] or [microsoft] and at most 30 for each other source, so at most
    [30 * n] for [n] sources; a cycle of the scraper as [JobScraper()]
    builds it returns at most 60. *)
Theorem scrape_all_bounded (self : JobScraper) (s s' : State) (new : list Job) :
  scrape_all self s = (inr new, s') ->
  length new <= sum_list_with cap (companies self) /\
  length new <= 30 * length (companies self) /\
  (forall start started, init start = (inr self, started) -> length new <= 60).
Proof.
  intros H. apply scrape_all_candidates in H as [-> _].
  destruct (record_new_sublist (cycle_candidates (companies self) (ticks s))
              (seen_jobs s) []) as (new & -> & Hsub).
  cbn [app]. apply sublist_length in Hsub.
  pose proof (cycle_candidates_length (companies self) (ticks s)) as Hcap.
  pose proof (sum_list_cap (companies self)) as Hsum.
  split; [lia|]. split; [lia|].
  intros start started Hinit. unfold init in Hinit. cbv zeta in Hinit.
  unfold bind, ret in Hinit.
  destruct (load_seen_jobs _ start) as [[e|[]] loaded]; [discriminate Hinit|].
  injection Hinit as <- _. cbn [companies] in Hcap.
  etrans; [exact Hsub|]. etrans; [exact Hcap|]. vm_compute. lia.
Qed.

(** X8. The dedup step drops nothing new and keeps the order: the list a
    cycle returns is taken from the postings the adapters returned, in the
    order of the sources and of extraction; the fingerprint of every one of
    these postings is in the Seen-Set afterwards; and when it was not in the
    Seen-Set before the cycle, a posting with that fingerprint is in the
    returned list. *)
Theorem scrape_all_complete (self : JobScraper) (s s' : State) (new : list Job) :
  scrape_all self s = (inr new, s') ->
  new `sublist_of` cycle_candidates (companies self) (ticks s) /\
  forall job, job ∈ cycle_candidates (companies self) (ticks s) ->
    is_Some (seen_jobs s' !! get_job_id job) /\
    (seen_jobs s !! get_job_id job = None ->
     exists job', job' ∈ new /\ get_job_id job' = get_job_id job).
Proof.
  intros H. apply scrape_all_candidates in H as [-> ->].
  set (jobs := cycle_candidates (companies self) (ticks s)).
  split; [|intros job Hjob; split].
  - destruct (record_new_sublist jobs (seen_jobs s) []) as (new & -> & Hsub). exact Hsub.
  - pose proof (record_new_recorded jobs (seen_jobs s) []) as Hrec.
    rewrite Forall_forall in Hrec. by apply Hrec.
  - intros Hnew. by apply record_new_complete.
Qed.

(** *** The application *)

Lemma send_alert_email_run (jobs : list Job) (a : app.App) :
  send_alert_email jobs a = (inr tt, app.set_outbox (app.outbox a ++ delivered jobs) a).
Proof.
  unfold send_alert_email, delivered, try_except, bind, ret.
  destruct jobs as [|job jobs]; [rewrite app_nil_r; by destruct a|].
  destruct alert_email as [e|recipient]; [rewrite app_nil_r; by destruct a|].
  destruct (mail_send (alert_message (job :: jobs) recipient)) as [e|[]];
    [rewrite app_nil_r; by destruct a | reflexivity].
Qed.

(** What one call of [check_jobs] does, by the outcome of the cycle. *)
Lemma app_check_jobs_run (self : JobScraper) (a : app.App) :
  app_check_jobs self a =
  match scrape_all self (app.scraper_state a) with
  | (inl e, s') => (inr tt, app.set_scraper_state s' a)
  | (inr new, s') =>
      (inr tt,
       {| app.scraper_state := set_ticks (S (ticks s')) s';
          app.last_results :=
            {| app.jobs := match new with
                           | [] => app.jobs (app.last_results a)
                           | _ :: _ => new
                           end;
               app.last_check := Some (clock (ticks s'));
               app.total_found := app.total_found (app.last_results a) + length new |};
          app.outbox := app.outbox a ++ delivered new |})
  end.
Proof.
  unfold app_check_jobs, try_except. unfold bind at 1. unfold on_scraper at 1.
  destruct (scrape_all self (app.scraper_state a)) as [[e|new] s']; [reflexivity|].
  destruct new as [|job new].
  - unfold bind, now, on_scraper, ret. destruct a as [s r o]. cbn.
    by rewrite Nat.add_0_r, app_nil_r.
  - unfold bind, now, on_scraper. rewrite send_alert_email_run.
    destruct a as [s r o]. reflexivity.
Qed.

Lemma app_check_jobs_returns (self : JobScraper) (a : app.App) :
  (app_check_jobs self a).1 = inr tt.
Proof.
  rewrite app_check_jobs_run.
  by destruct (scrape_all self (app.scraper_state a)) as [[e|new] s'].
Qed.

(** On the scraper, [check_jobs] in full does what the cycle with its
    exception caught does, and reads the clock once more when the cycle
    returns. *)
Lemma app_check_jobs_on_scraper (self : JobScraper) (a : app.App) :
  seen_jobs (app.scraper_state (app_check_jobs self a).2) =
    seen_jobs (check_jobs self (app.scraper_state a)).2 /\
  files (app.scraper_state (app_check_jobs self a).2) =
    files (check_jobs self (app.scraper_state a)).2.
Proof.
  rewrite app_check_jobs_run. unfold check_jobs, try_except, bind, ret.
  by destruct (scrape_all self (app.scraper_state a)) as [[e|new] s'].
Qed.

Lemma app_scheduled_S (n : nat) (self : JobScraper) (a : app.App) :
  app_scheduled (S n) self a = app_scheduled n self (app_check_jobs self a).2.
Proof.
  cbn [app_scheduled]. unfold bind.
  pose proof (app_check_jobs_returns self a) as H.
  destruct (app_check_jobs self a) as [[e|[]] a']; [discriminate H | reflexivity].
Qed.

(** A cycle on a state that holds what an earlier cycle over the same pages
    recorded finds nothing new. *)
Lemma scrape_all_again (self : JobScraper) (s s1 s2 : State) (new : list Job) :
  scrape_companies (companies self) [] s = (inr new, s1) ->
  seen_jobs s1 ⊆ seen_jobs s2 ->
  exists s3,
    seen_jobs s3 = seen_jobs s2 /\
    (scrape_all self s2 = (inr [], s3) \/ scrape_all self s2 = (inl PermissionError, s3)).
Proof.
  intros Hrun Hsub.
  destruct (scrape_companies_again _ _ _ _ _ Hrun [] s2 Hsub) as [t Ht].
  unfold scrape_all, bind. rewrite Ht.
  unfold save_seen_jobs, open_w, ret. cbn [files set_ticks].
  destruct (files s2 !! seen_file self) as [[|text]|]; eexists; (split; [|eauto]); reflexivity.
Qed.

(** A call of [check_jobs] on such a state changes neither the results
    shown, nor the total, nor the outbox, nor the Seen-Set. *)
Lemma app_check_jobs_again (self : JobScraper) (s s1 : State) (new : list Job) (a : app.App) :
  scrape_companies (companies self) [] s = (inr new, s1) ->
  seen_jobs s1 ⊆ seen_jobs (app.scraper_state a) ->
  let a' := (app_check_jobs self a).2 in
  seen_jobs (app.scraper_state a') = seen_jobs (app.scraper_state a) /\
  app.jobs (app.last_results a') = app.jobs (app.last_results a) /\
  app.total_found (app.last_results a') = app.total_found (app.last_results a) /\
  app.outbox a' = app.outbox a.
Proof.
  intros Hrun Hsub. cbv zeta. rewrite app_check_jobs_run.
  destruct (scrape_all_again self s s1 (app.scraper_state a) new Hrun Hsub)
    as (s3 & Hseen & [-> | ->]); cbn.
  - rewrite Nat.add_0_r. unfold delivered. by rewrite app_nil_r.
  - done.
Qed.

Lemma app_scheduled_again (self : JobScraper) (s s1 : State) (new : list Job) (n : nat) :
  scrape_companies (companies self) [] s = (inr new, s1) ->
  forall a,
    seen_jobs s1 ⊆ seen_jobs (app.scraper_state a) ->
    let a' := (app_scheduled n self a).2 in
    seen_jobs (app.scraper_state a') = seen_jobs (app.scraper_state a) /\
    app.jobs (app.last_results a') = app.jobs (app.last_results a) /\
    app.total_found (app.last_results a') = app.total_found (app.last_results a) /\
    app.outbox a' = app.outbox a.
Proof.
  intros Hrun. induction n as [|n IH]; intros a Hsub; [done|].
  cbv zeta. rewrite app_scheduled_S.
  destruct (app_check_jobs_again self s s1 new a Hrun Hsub) as (H1 & H2 & H3 & H4).
  destruct (IH (app_check_jobs self a).2) as (H1' & H2' & H3' & H4').
  { by rewrite H1. }
  cbv zeta in *. repeat split; congruence.
Qed.

Lemma app_scheduled_returns (self : JobScraper) (n : nat) :
  forall a, (app_scheduled n self a).1 = inr tt.
Proof.
  induction n as [|n IH]; intros a; [reflexivity|].
  rewrite app_scheduled_S. apply IH.
Qed.

(** X9. The scheduled calls of [check_jobs] never raise, and after the first
    one the calls that follow over the same pages send no message and leave
    the postings shown, the total and the Seen-Set as they are, however many
    they are and whether or not the Seen-Set could be saved: no posting is
    announced twice. *)
Theorem app_steady_state (self : JobScraper) (a : app.App) (n : nat) :
  let a1 := (app_check_jobs self a).2 in
  let an := (app_scheduled n self a1).2 in
  (app_check_jobs self a).1 = inr tt /\
  (app_scheduled n self a1).1 = inr tt /\
  app.outbox an = app.outbox a1 /\
  app.jobs (app.last_results an) = app.jobs (app.last_results a1) /\
  app.total_found (app.last_results an) = app.total_found (app.last_results a1) /\
  seen_jobs (app.scraper_state an) = seen_jobs (app.scraper_state a1).
Proof.
  cbv zeta.
  split; [apply app_check_jobs_returns|]. split; [apply app_scheduled_returns|].
  destruct (scrape_all_run self (app.scraper_state a)) as (new & s1 & Hrun & _ & _ & Hall).
  assert (Hseen : seen_jobs s1 ⊆ seen_jobs (app.scraper_state (app_check_jobs self a).2)).
  { rewrite app_check_jobs_run, Hall.
    by destruct (files (app.scraper_state a) !! seen_file self) as [[|text]|]. }
  destruct (app_scheduled_again self _ s1 new n Hrun _ Hseen) as (H1 & H2 & H3 & H4).
  by repeat split.
Qed.

(** The Seen-Set only grows under the scheduler of the application. *)
Lemma app_check_jobs_subseteq (self : JobScraper) (a : app.App) :
  seen_jobs (app.scraper_state a) ⊆ seen_jobs (app.scraper_state (app_check_jobs self a).2).
Proof.
  rewrite app_check_jobs_run.
  pose proof (scrape_all_subseteq self (app.scraper_state a)) as H.
  by destruct (scrape_all self (app.scraper_state a)) as [[e|new] s'].
Qed.

Lemma app_scheduled_subseteq (self : JobScraper) (n : nat) :
  forall a,
    seen_jobs (app.scraper_state a) ⊆ seen_jobs (app.scraper_state (app_scheduled n self a).2).
Proof.
  induction n as [|n IH]; intros a; [reflexivity|].
  rewrite app_scheduled_S. etrans; [apply app_check_jobs_subseteq | apply IH].
Qed.

(** One call of [check_jobs] when the file of the Seen-Set cannot be
    written. *)
Lemma app_check_jobs_denied (self : JobScraper) (a : app.App) :
  files (app.scraper_state a) !! seen_file self = Some Denied ->
  exists s1,
    app_check_jobs self a = (inr tt, app.set_scraper_state s1 a) /\
    files s1 = files (app.scraper_state a) /\
    seen_jobs s1 =
      (record_new (cycle_candidates (companies self) (ticks (app.scraper_state a)))
         (seen_jobs (app.scraper_state a)) []).1.
Proof.
  intros Hfile. rewrite app_check_jobs_run.
  destruct (scrape_all_run self (app.scraper_state a)) as (new & s1 & Hrun & Hfiles & _ & ->).
  rewrite Hfile. exists s1. split; [reflexivity|]. split; [exact Hfiles|].
  destruct (scrape_companies_candidates (companies self) [] (app.scraper_state a)) as [t Ht].
  rewrite Ht in Hrun. by injection Hrun as _ <-.
Qed.

Lemma app_scheduled_denied (self : JobScraper) (n : nat) :
  forall a,
    files (app.scraper_state a) !! seen_file self = Some Denied ->
    app.last_results (app_scheduled n self a).2 = app.last_results a /\
    app.outbox (app_scheduled n self a).2 = app.outbox a.
Proof.
  induction n as [|n IH]; intros a Hfile; [done|].
  rewrite app_scheduled_S.
  destruct (app_check_jobs_denied self a Hfile) as (s1 & -> & Hfiles & _).
  destruct (IH (app.set_scraper_state s1 a)) as [H1 H2]; [cbn; by rewrite Hfiles|].
  cbn [snd]. by rewrite H1, H2.
Qed.

(** X10. When the file of the Seen-Set cannot be written, the cycle raises
    [PermissionError] at the save, after the Seen-Set in memory has taken the
    postings found: the application then shows and announces nothing,
    however many calls of [check_jobs] run, while every posting the adapters
    returned in the first cycle is in the Seen-Set. *)
Theorem unwritable_seen_file_silences_alerts (self : JobScraper) (a : app.App) (n : nat) :
  files (app.scraper_state a) !! seen_file self = Some Denied ->
  let a' := (app_scheduled (S n) self a).2 in
  (scrape_all self (app.scraper_state a)).1 = inl PermissionError /\
  app.last_results a' = app.last_results a /\
  app.outbox a' = app.outbox a /\
  forall job,
    job ∈ cycle_candidates (companies self) (ticks (app.scraper_state a)) ->
    is_Some (seen_jobs (app.scraper_state a') !! get_job_id job).
Proof.
  intros Hfile. cbv zeta. split; [|split; [|split]].
  - destruct (scrape_all_run self (app.scraper_state a)) as (new & s1 & _ & _ & _ & ->).
    by rewrite Hfile.
  - by apply app_scheduled_denied.
  - by apply app_scheduled_denied.
  - intros job Hjob. rewrite app_scheduled_S.
    eapply lookup_weaken_is_Some; [|apply app_scheduled_subseteq].
    destruct (app_check_jobs_denied self a Hfile) as (s1 & -> & _ & Hseen).
    cbn. rewrite Hseen.
    pose proof (record_new_recorded
                  (cycle_candidates (companies self) (ticks (app.scraper_state a)))
                  (seen_jobs (app.scraper_state a)) []) as Hrec.
    rewrite Forall_forall in Hrec. by apply Hrec.
Qed.



(** *** Persistence, continued *)

Lemma load_seen_jobs_loaded (self : JobScraper) (s : State) (text : string)
    (loaded : gmap string Job) :
  files s !! seen_file self = Some (Contents text) ->
  Str.utf8 text = true ->
  json_load text = inr loaded ->
  load_seen_jobs self s = (inr tt, set_seen_jobs loaded s).
Proof.
  unfold load_seen_jobs, try_except, bind, open_r.
  by intros -> -> ->.
Qed.

(** X12. When a cycle returns, the file of the Seen-Set holds the text
    [json.dump] gives for the Seen-Set in memory as the cycle leaves it, and
    every other file is as it was before the cycle. *)
Theorem scrape_all_persists (self : JobScraper) (s s' : State) (new : list Job) :
  scrape_all self s = (inr new, s') ->
  files s' !! seen_file self = Some (Contents (json_dump (seen_jobs s'))) /\
  forall path, path <> seen_file self -> files s' !! path = files s !! path.
Proof.
  intros H.
  destruct (scrape_companies_spec (companies self) [] s) as (new0 & s0 & Hrun0 & Hfiles & _).
  apply scrape_all_returns in H as (s1 & Hrun & _ & ->).
  rewrite Hrun0 in Hrun. injection Hrun as -> ->.
  cbn [files seen_jobs set_files]. split.
  - apply lookup_insert_eq.
  - intros path Hpath. rewrite lookup_insert_ne by done. by rewrite Hfiles.
Qed.

(** X13. A restart after a completed cycle resumes with the Seen-Set of that
    cycle: when [json.load] reads back what [json.dump] wrote, a process
    that starts on the files the cycle left loads exactly the Seen-Set the
    cycle ended with, whatever it held in memory, and so does the
    constructor [JobScraper()] for the file name it uses. *)
Theorem restart_restores_seen_jobs (self : JobScraper) (s s' fresh : State)
    (new : list Job) :
  scrape_all self s = (inr new, s') ->
  Str.utf8 (json_dump (seen_jobs s')) = true ->
  json_load (json_dump (seen_jobs s')) = inr (seen_jobs s') ->
  files fresh = files s' ->
  load_seen_jobs self fresh = (inr tt, set_seen_jobs (seen_jobs s') fresh) /\
  (seen_file self = "seen_jobs.json" ->
   exists scraper,
     init fresh = (inr scraper, set_seen_jobs (seen_jobs s') fresh) /\
     seen_file scraper = seen_file self).
Proof.
  intros Hrun Hutf8 Hjson Hfiles.
  apply scrape_all_returns in Hrun as (s1 & _ & _ & ->).
  cbn [seen_jobs set_files files] in *.
  assert (Hfile : files fresh !! seen_file self =
                  Some (Contents (json_dump (seen_jobs s1))))
    by (rewrite Hfiles; apply lookup_insert_eq).
  split; [by apply (load_seen_jobs_loaded _ _ _ _ Hfile)|].
  intros Hname. unfold init. cbv zeta. unfold bind at 1.
  rewrite (load_seen_jobs_loaded _ fresh (json_dump (seen_jobs s1)) (seen_jobs s1));
    [|cbn [seen_file]; by rewrite <- Hname|assumption..].
  unfold ret. eexists. split; [reflexivity|]. cbn [seen_file]. by rewrite Hname.
Qed.

(** *** The alert *)

Lemma fold_left_append {A} (g : A -> string) (l : list A) :
  forall init : string,
    fold_left (fun body x => body +:+ g x) l init =
    init +:+ foldr (fun x rest => g x +:+ rest) "" l.
Proof.
  induction l as [|x l IH]; intros init; cbn [fold_left foldr].
  - induction init as [|c init IHi]; [reflexivity|].
    change (String c init = String c (init +:+ "")). by rewrite <- IHi.
  - by rewrite IH, append_assoc.
Qed.

Lemma foldr_append_split {A} (g : A -> string) (l1 l2 : list A) (x : A) :
  foldr (fun x rest => g x +:+ rest) "" (l1 ++ x :: l2) =
  foldr (fun x rest => g x +:+ rest) "" l1 +:+ g x +:+
  foldr (fun x rest => g x +:+ rest) "" l2.
Proof.
  induction l1 as [|y l1 IH]; [reflexivity|].
  cbn [app foldr]. by rewrite IH, append_assoc.
Qed.

(** The body of an alert holds the lines of each posting. *)
Lemma alert_body_entries (jobs : list Job) (job : Job) :
  job ∈ jobs -> Str.substring_of (alert_entry job) (alert_body jobs).
Proof.
  intros Hjob. apply list_elem_of_split in Hjob as (l1 & l2 & ->).
  unfold alert_body. cbv zeta.
  set (g := fun job : Job =>
              alert_entry job +:+ copies 40 "-" +:+ newline +:+ newline).
  assert (Hfold : forall l init,
             fold_left
               (fun body job =>
                  ((((body +:+ ("Company: " +:+ company job +:+ newline))
                     +:+ ("Position: " +:+ title job +:+ newline))
                    +:+ ("Link: " +:+ url job +:+ newline))
                   +:+ ("Found: " +:+ date_found job +:+ newline))
                  +:+ (copies 40 "-" +:+ (newline +:+ newline))) l init =
             fold_left (fun body job => body +:+ g job) l init).
  { induction l as [|x l IH]; intros init; [reflexivity|].
    cbn [fold_left]. rewrite IH. f_equal.
    unfold g, alert_entry. by rewrite !append_assoc. }
  rewrite Hfold, fold_left_append, foldr_append_split.
  match goal with
  | |- Str.substring_of _ ((?header +:+ ?before +:+ g job +:+ ?after) +:+ ?total) =>
      exists (header +:+ before),
             ((copies 40 "-" +:+ newline +:+ newline) +:+ after +:+ total)
  end.
  unfold g. rewrite !append_assoc. reflexivity.
Qed.

(** X14. Every posting a cycle returns is announced: when the cycle returns
    a non-empty list, the recipient is configured and the mail server
    accepts the message, [check_jobs] shows the list, adds its length to the
    total, and hands the server one message, to that recipient, whose body
    holds for each posting of the list its company, title, link and date,
    and whose subject gives the number of postings. *)
Theorem check_jobs_announces (self : JobScraper) (a : app.App) (s' : State)
    (new : list Job) (recipient : string) :
  scrape_all self (app.scraper_state a) = (inr new, s') ->
  new <> [] ->
  alert_email = inr recipient ->
  mail_send (alert_message new recipient) = inr tt ->
  let a' := (app_check_jobs self a).2 in
  app.jobs (app.last_results a') = new /\
  app.total_found (app.last_results a') =
    app.total_found (app.last_results a) + length new /\
  app.outbox a' = app.outbox a ++ [alert_message new recipient] /\
  app.recipients (alert_message new recipient) = [recipient] /\
  app.subject (alert_message new recipient) =
    "🔥 " +:+ str (length new) +:+ " New Backend Internships Available!" /\
  forall job, job ∈ new ->
    Str.substring_of
      ("Company: " +:+ company job +:+ newline +:+
       "Position: " +:+ title job +:+ newline +:+
       "Link: " +:+ url job +:+ newline +:+
       "Found: " +:+ date_found job +:+ newline)
      (app.body (alert_message new recipient)).
Proof.
  intros Hrun Hnew Hrecipient Hsend. cbv zeta.
  rewrite app_check_jobs_run, Hrun.
  cbn [snd app.last_results app.jobs app.total_found app.outbox].
  destruct new as [|job0 new]; [done|].
  unfold delivered. rewrite Hrecipient, Hsend.
  do 5 (split; [reflexivity|]).
  intros job Hjob. by apply alert_body_entries.
Qed.


(** X15. An alert that fails is not sent again: when a cycle returns
    postings and no recipient is configured or the mail server refuses the
    message, [check_jobs] still shows and counts the postings, and neither
    that call nor any later one over the same pages hands the server a
    message. *)
Theorem failed_alert_is_not_retried (self : JobScraper) (a : app.App) (s' : State)
    (new : list Job) (n : nat) :
  scrape_all self (app.scraper_state a) = (inr new, s') ->
  new <> [] ->
  (exists e, alert_email = inl e) \/
  (exists recipient e,
      alert_email = inr recipient /\ mail_send (alert_message new recipient) = inl e) ->
  let a1 := (app_check_jobs self a).2 in
  let an := (app_scheduled n self a1).2 in
  app.jobs (app.last_results an) = new /\
  app.total_found (app.last_results an) =
    app.total_found (app.last_results a) + length new /\
  app.outbox an = app.outbox a.
Proof.
  intros Hall Hnew Hmail. cbv zeta.
  assert (Hfailed : delivered new = []).
  { unfold delivered. destruct new as [|job new]; [done|].
    by destruct Hmail as [[e ->] | (recipient & e & -> & ->)]. }
  destruct (scrape_all_returns self _ _ _ Hall) as (s1 & Hrun & _ & Hs').
  assert (Ha1 : app_check_jobs self a =
                (inr tt,
                 {| app.scraper_state := set_ticks (S (ticks s')) s';
                    app.last_results :=
                      {| app.jobs := new;
                         app.last_check := Some (clock (ticks s'));
                         app.total_found :=
                           app.total_found (app.last_results a) + length new |};
                    app.outbox := app.outbox a |})).
  { rewrite app_check_jobs_run, Hall, Hfailed, app_nil_r. by destruct new. }
  rewrite Ha1. cbn [snd].
  match goal with
  | |- context [app_scheduled n self ?a1] =>
      destruct (app_scheduled_again self _ s1 new n Hrun a1) as (_ & H2 & H3 & H4)
  end.
  { rewrite Hs'. reflexivity. }
  cbv zeta in *. rewrite H2, H3, H4. done.
Qed.
End Scraper.

(** ** The statements on the concrete world *)

Local Abbreviation demo_scrape_all :=
  (scrape_all Demo.urljoin Demo.BeautifulSoup Demo.json_dump Demo.http Demo.clock).
Local Abbreviation demo_scrape_generic :=
  (scrape_generic Demo.urljoin Demo.BeautifulSoup Demo.http Demo.clock).
Local Abbreviation demo_scrape_generic_using :=
  (scrape_generic_using Demo.urljoin Demo.BeautifulSoup Demo.http Demo.clock).
Local Abbreviation demo_scrape_google :=
  (scrape_google Demo.urljoin Demo.BeautifulSoup Demo.http Demo.clock).

(** The MD5 test suite of RFC 1321, and a message of three blocks. *)
Example md5_test_suite :
  MD5.hexdigest "" = "d41d8cd98f00b204e9800998ecf8427e" /\
  MD5.hexdigest "a" = "0cc175b9c0f1b6a831c399e269772661" /\
  MD5.hexdigest "abc" = "900150983cd24fb0d6963f7d28e17f72" /\
  MD5.hexdigest "message digest" = "f96b697d7cb7938d525a2f31aaf161d0" /\
  MD5.hexdigest "abcdefghijklmnopqrstuvwxyz" = "c3fcd3d76192e4007dfb496cca67e13b" /\
  MD5.hexdigest "ABCDEFGHIJKLMNOPQRSTUVWXYZabcdefghijklmnopqrstuvwxyz0123456789" =
    "d174ab98d277d9f5a5611c2c9f419d9f" /\
  MD5.hexdigest "12345678901234567890123456789012345678901234567890123456789012345678901234567890" =
    "57edf4a22be3c955ac49da2e2107b67a" /\
  MD5.hexdigest Demo.long_title = "c20fc3609b370a48439e0b3577cc2504".
Proof. repeat (apply conj; [vm_compute; reflexivity|]). vm_compute. reflexivity. Qed.

(** C1, counterexample. On the page of [Demo.amazon] the generic adapter
    extracts three candidates; with [is_backend_internship] as classifier it
    returns two of them: what it returns depends on the classifier. *)
Lemma adapter_output_depends_on_classifier :
  (demo_scrape_generic_using (fun _ => true) Demo.amazon Demo.s0).1 =
    inr [Demo.backend_intern; Demo.senior_engineer; Demo.cloud_developer] /\
  (demo_scrape_generic_using is_backend_internship Demo.amazon Demo.s0).1 =
    inr [Demo.backend_intern; Demo.cloud_developer].
Proof. split; vm_compute; reflexivity. Qed.

(** C3, counterexample. Two postings with different identifying tuples and
    the same fingerprint. *)
Lemma get_job_id_collision :
  identity Demo.rolls <> identity Demo.rolls_royce /\
  get_job_id Demo.rolls = get_job_id Demo.rolls_royce.
Proof. split; [discriminate | vm_compute; reflexivity]. Qed.

(** C3, an instance: a posting found again later keeps its fingerprint, and
    two postings of one source with different links have different ones. *)
Lemma get_job_id_deterministic_witness :
  get_job_id Demo.backend_intern = get_job_id Demo.stored /\
  get_job_id Demo.backend_intern <> get_job_id Demo.cloud_developer.
Proof.
  split.
  - apply (proj1 (get_job_id_deterministic Demo.backend_intern Demo.stored)).
    vm_compute. reflexivity.
  - apply (proj2 (get_job_id_deterministic Demo.backend_intern Demo.cloud_developer));
      try (vm_compute; reflexivity).
    + intros H. vm_compute in H. discriminate H.
    + discriminate.
Defined.

(** C4, counterexample. A first cycle over a source that does not answer
    returns the empty list. *)
Lemma first_cycle_empty :
  (demo_scrape_all {| seen_file := "seen_jobs.json"; companies := [Demo.acme] |} Demo.s0).1 =
  inr [].
Proof. vm_compute. reflexivity. Qed.

(** C4, an instance: on a first start the posting of the page of
    [Demo.google] is not in the Seen-Set; the first cycle over the three demo
    sources returns four postings, the second none. *)
Lemma scrape_all_twice_witness :
  exists new s1,
    demo_scrape_all Demo.self Demo.s0 = (inr new, s1) /\
    length new = 4 /\
    new <> [] /\
    exists s2, demo_scrape_all Demo.self s1 = (inr [], s2) /\ seen_jobs s2 = seen_jobs s1.
Proof.
  destruct (demo_scrape_all Demo.self Demo.s0) as [[e|new] s1] eqn:E;
    [vm_compute in E; discriminate E|].
  exists new, s1. split; [reflexivity|].
  split; [pose proof E as E'; vm_compute in E'; by injection E' as <- _|].
  destruct (scrape_all_twice _ _ _ _ _ _ _ _ _ E) as [Hne Hagain].
  split; [|exact Hagain].
  apply Hne. exists Demo.google_job. split; [|vm_compute; reflexivity].
  assert (Hcand : cycle_candidates Demo.urljoin Demo.BeautifulSoup Demo.http Demo.clock
                    (companies Demo.self) (ticks Demo.s0) = Demo.first_cycle)
    by (vm_compute; reflexivity).
  rewrite Hcand. by left.
Defined.

(** C5, an instance: the posting stored by an earlier cycle is found again
    and its stored snapshot, with the earlier date, is kept. *)
Lemma seen_jobs_monotone_witness :
  seen_jobs Demo.s_seen !! get_job_id Demo.stored = Some Demo.stored /\
  seen_jobs (demo_scrape_all Demo.self Demo.s_seen).2 !! get_job_id Demo.stored =
    Some Demo.stored.
Proof.
  assert (H : seen_jobs Demo.s_seen !! get_job_id Demo.stored = Some Demo.stored)
    by (vm_compute; reflexivity).
  split; [exact H|].
  apply (proj1 (seen_jobs_monotone _ _ _ _ _ Demo.self Demo.s_seen _ _ H)).
Defined.

(** C6, counterexample. On the page of [Demo.globex] the first thirty
    anchor elements have no [href]; the generic adapter returns two postings,
    from the anchors after them.  The [href] of the second is a relative
    path, which [urljoin] would resolve; the link of the posting is that path
    as it stands. *)
Lemma generic_scan_counterexample :
  bs4.find_all ["a"] (fun _ => true) Demo.globex_page =
    replicate 30 Demo.placeholder ++
    [ Demo.a "/jobs/1" "Backend Engineering Intern";
      Demo.a "httpd/intern.html" "Server Software Internship" ] /\
  (demo_scrape_generic Demo.globex Demo.s0).1 =
    inr [Demo.globex_intern; Demo.globex_server] /\
  url Demo.globex_server = "httpd/intern.html" /\
  Demo.urljoin (base_url Demo.globex) "httpd/intern.html" =
    inr "https://globex.example/httpd/intern.html".
Proof. repeat (apply conj; [vm_compute; reflexivity|]). vm_compute. reflexivity. Qed.

(** C6, an instance: the page of [Demo.amazon]. *)
Lemma scrape_generic_candidates_witness :
  demo_scrape_generic Demo.amazon Demo.s0 =
    (inr [Demo.backend_intern; Demo.cloud_developer], set_ticks 3 Demo.s0) /\
  forall job, job ∈ [Demo.backend_intern; Demo.cloud_developer] ->
    10 <= String.length (title job) < 150.
Proof.
  assert (H : demo_scrape_generic Demo.amazon Demo.s0 =
              (inr [Demo.backend_intern; Demo.cloud_developer], set_ticks 3 Demo.s0))
    by (vm_compute; reflexivity).
  split; [exact H|]. intros job Hjob.
  destruct (proj2 (proj2 (scrape_generic_candidates _ _ _ _ _ _ _ _ H)) job Hjob)
    as (soup & link & _ & _ & _ & Hlength & _).
  exact Hlength.
Defined.

(** C7, counterexample. The page of [Demo.google] has a container whose
    title element holds 120 characters; the posting returned carries all of
    them. *)
Lemma container_title_not_truncated :
  (demo_scrape_google Demo.google Demo.s0).1 = inr [Demo.google_job] /\
  String.length (title Demo.google_job) = 120.
Proof. split; vm_compute; reflexivity. Qed.

(** C7, an instance of each branch: the page of [Demo.google], with a
    container, and the page of [Demo.google_flat], with twelve relevant links
    and no container. *)
Lemma scrape_google_candidates_witness :
  (exists elem title_elem,
      elem ∈ take 15 (bs4.find_all ["div"; "li"] (bs4.class_ job_or_card) Demo.google_page) /\
      bs4.find ["h3"; "h4"; "a"; "span"] (bs4.class_ title_class) elem = Some title_elem /\
      title Demo.google_job = Str.strip (bs4.get_text title_elem)) /\
  (exists jobs s',
      demo_scrape_google Demo.google_flat Demo.s0 = (inr jobs, s') /\ length jobs <= 10).
Proof.
  split.
  - assert (Hpage : page_of Demo.BeautifulSoup Demo.http Demo.google = Some Demo.google_page)
      by (vm_compute; reflexivity).
    assert (Hrun : demo_scrape_google Demo.google Demo.s0 =
                   (inr [Demo.google_job], set_ticks 1 Demo.s0))
      by (vm_compute; reflexivity).
    destruct (proj1 (scrape_google_candidates _ _ _ _ _ _ _ _ _ Hpage Hrun)
                ltac:(discriminate) Demo.google_job ltac:(by left))
      as (elem & title_elem & link_elem & Helem & Htitle_elem & _ & Htitle & _).
    by exists elem, title_elem.
  - assert (Hpage : page_of Demo.BeautifulSoup Demo.http Demo.google_flat =
                    Some Demo.google_flat_page)
      by (vm_compute; reflexivity).
    destruct (demo_scrape_google Demo.google_flat Demo.s0) as [[e|jobs] s'] eqn:E;
      [vm_compute in E; discriminate E|].
    exists jobs, s'. split; [reflexivity|].
    apply (proj2 (scrape_google_candidates _ _ _ _ _ _ _ _ _ Hpage E)).
    vm_compute. reflexivity.
Defined.

(** C8, the failing input. The file holds bytes that are not the UTF-8
    encoding of any text: reading it raises [UnicodeDecodeError], which
    [load_seen_jobs] does not catch, and so does the constructor. *)
Theorem load_seen_jobs_raises :
  load_seen_jobs Demo.json_load Demo.self Demo.s_binary =
    (inl UnicodeDecodeError, Demo.s_binary) /\
  (init Demo.json_load Demo.s_binary).1 = inl UnicodeDecodeError.
Proof. split; vm_compute; reflexivity. Qed.

(** C8, the cases the code handles: no file, and a file that
    [Demo.json_load] rejects. *)
Example load_seen_jobs_handled :
  load_seen_jobs Demo.json_load Demo.self Demo.s0 =
    (inr tt, set_seen_jobs ∅ Demo.s0) /\
  load_seen_jobs Demo.json_load Demo.self Demo.s_garbage =
    (inr tt, set_seen_jobs ∅ Demo.s_garbage).
Proof.
  split; apply load_seen_jobs_resilient.
  - left. vm_compute. reflexivity.
  - right. exists "not json {". repeat split; vm_compute; reflexivity.
Qed.

(** C9, counterexample. On the page of [Demo.hooli] the extraction raises
    at the second link, on which [urljoin] raises; the adapter returns the
    posting appended before, not the empty list.  The server of
    [Demo.vanished] answers with the status 404 and a page that holds a link:
    the request returns, the adapter parses the page and returns a
    posting. *)
Lemma failed_source_yields_candidates :
  (generic_extract Demo.urljoin Demo.clock is_backend_internship Demo.hooli
     Demo.hooli_page ([], 0)).1 = inl ValueError /\
  (demo_scrape_generic Demo.hooli Demo.s0).1 = inr [Demo.hooli_java] /\
  Demo.http (search_url Demo.vanished) =
    inr {| requests.status_code := 404; requests.text := Demo.vanished_html |} /\
  (demo_scrape_generic Demo.vanished Demo.s0).1 = inr [Demo.vanished_programs].
Proof. repeat (apply conj; [vm_compute; reflexivity|]). vm_compute. reflexivity. Qed.

(** C9, an instance: a cycle over a source that does not answer, a source
    whose page the parser rejects, and [Demo.amazon] returns the postings of
    the third; and for the answer of [Demo.vanished], of status 404, the
    adapter returns what the extraction of its page leaves. *)
Lemma extraction_never_raises_witness :
  demo_scrape_generic Demo.acme Demo.s0 = (inr [], Demo.s0) /\
  (demo_scrape_all
     {| seen_file := "seen_jobs.json"; companies := [Demo.acme; Demo.initech; Demo.amazon] |}
     Demo.s0).1 =
    inr [Demo.backend_intern; Demo.cloud_developer] /\
  (demo_scrape_generic Demo.vanished Demo.s0).1 =
    inr (generic_extract Demo.urljoin Demo.clock is_backend_internship Demo.vanished
           Demo.vanished_page ([], 0)).2.1.
Proof.
  assert (Hacme : fetch_error Demo.http Demo.acme \/
                  parse_error Demo.BeautifulSoup Demo.http Demo.acme)
    by (left; exists ConnectionError; vm_compute; reflexivity).
  assert (Hinitech : fetch_error Demo.http Demo.initech \/
                     parse_error Demo.BeautifulSoup Demo.http Demo.initech)
    by (right;
        exists {| requests.status_code := 200; requests.text := Demo.rejected_html |},
               ParserRejectedMarkup;
        split; vm_compute; reflexivity).
  destruct (proj1 (proj2 (extraction_never_raises Demo.urljoin Demo.BeautifulSoup
                            Demo.json_dump Demo.http Demo.clock Demo.acme Demo.s0)) Hacme)
    as (_ & _ & Hgeneric & Hskip).
  destruct (proj1 (proj2 (extraction_never_raises Demo.urljoin Demo.BeautifulSoup
                            Demo.json_dump Demo.http Demo.clock Demo.initech Demo.s0)) Hinitech)
    as (_ & _ & _ & Hskip').
  destruct (proj2 (proj2 (extraction_never_raises Demo.urljoin Demo.BeautifulSoup
                            Demo.json_dump Demo.http Demo.clock Demo.vanished Demo.s0))
              {| requests.status_code := 404; requests.text := Demo.vanished_html |}
              Demo.vanished_page ltac:(vm_compute; reflexivity)
              ltac:(vm_compute; reflexivity))
    as (_ & _ & Hvanished).
  split; [exact Hgeneric|]. split; [|exact Hvanished].
  specialize (Hskip "seen_jobs.json" [] [Demo.initech; Demo.amazon]).
  specialize (Hskip' "seen_jobs.json" [] [Demo.amazon]).
  cbn [app] in Hskip, Hskip'. rewrite Hskip, Hskip'.
  vm_compute. reflexivity.
Defined.

(** C10, an instance: a cycle started with one posting seen returns three
    others and leaves four entries. *)
Lemma scrape_all_novel_witness :
  exists new s',
    demo_scrape_all Demo.self Demo.s_seen = (inr new, s') /\
    length new = 3 /\
    NoDup (map get_job_id new) /\
    size (seen_jobs s') = 4.
Proof.
  destruct (demo_scrape_all Demo.self Demo.s_seen) as [[e|new] s'] eqn:E;
    [vm_compute in E; discriminate E|].
  exists new, s'. split; [reflexivity|].
  assert (Hlen : length new = 3)
    by (pose proof E as E'; vm_compute in E'; by injection E' as <- _).
  split; [exact Hlen|].
  destruct (scrape_all_novel _ _ _ _ _ _ _ _ _ E) as (Hnodup & _ & Hsize).
  split; [exact Hnodup|]. rewrite Hsize, Hlen. vm_compute. reflexivity.
Defined.

(** ** The further properties on the concrete world *)

Local Abbreviation demo_scrape_microsoft :=
  (scrape_microsoft Demo.urljoin Demo.BeautifulSoup Demo.http Demo.clock).
Local Abbreviation demo_scrape_company :=
  (scrape_company Demo.urljoin Demo.BeautifulSoup Demo.http Demo.clock).
Local Abbreviation demo_cycle_candidates :=
  (cycle_candidates Demo.urljoin Demo.BeautifulSoup Demo.http Demo.clock).
Local Abbreviation demo_app_check_jobs :=
  (app_check_jobs Demo.urljoin Demo.BeautifulSoup Demo.json_dump Demo.http Demo.clock
     Demo.alert_email Demo.mail_send).
Local Abbreviation demo_app_scheduled :=
  (app_scheduled Demo.urljoin Demo.BeautifulSoup Demo.json_dump Demo.http Demo.clock
     Demo.alert_email Demo.mail_send).

(** A run that returns [x] is the pair of [x] and the state it leaves. *)
Lemma run_result {A S : Type} (run : (exn + A) * S) (x : A) :
  run.1 = inr x -> run = (inr x, run.2).
Proof. destruct run as [r s]. cbn. by intros ->. Qed.

Lemma set_seen_jobs_back (m : gmap string Job) (s : State) :
  set_seen_jobs (seen_jobs s) (set_seen_jobs m s) = s.
Proof. by destruct s. Qed.

Lemma json_load_among_head (m : gmap string Job) (known : list (gmap string Job)) :
  Demo.json_load_among (m :: known) (Demo.json_dump m) = inr m.
Proof. unfold Demo.json_load_among. cbn [List.find]. by rewrite String.eqb_refl. Qed.

(** The first cycle of the demo scraper on a first start. *)
Lemma demo_first_cycle :
  demo_scrape_all Demo.self Demo.s0 =
  (inr Demo.first_cycle, (demo_scrape_all Demo.self Demo.s0).2).
Proof. apply run_result. vm_compute. reflexivity. Qed.

(** X2, an instance: a title with a season before it and a place after
    it. *)
Lemma is_backend_internship_monotone_witness :
  is_backend_internship "Backend Intern" = true /\
  is_backend_internship "Summer 2025 Backend Intern (Remote)" = true.
Proof.
  assert (H : is_backend_internship "Backend Intern" = true) by (vm_compute; reflexivity).
  split; [exact H|].
  apply (is_backend_internship_monotone "Backend Intern"); [|exact H].
  by exists "Summer 2025 ", " (Remote)".
Defined.

(** X5, an instance: the page of [Demo.microsoft], with two cards, gives one
    posting. *)
Lemma scrape_microsoft_candidates_witness :
  demo_scrape_microsoft Demo.microsoft Demo.s0 =
    (inr [Demo.python_intern], set_ticks 2 Demo.s0) /\
  length [Demo.python_intern] <= 15 /\
  is_backend_internship (title Demo.python_intern) = true.
Proof.
  assert (H : demo_scrape_microsoft Demo.microsoft Demo.s0 =
              (inr [Demo.python_intern], set_ticks 2 Demo.s0))
    by (vm_compute; reflexivity).
  split; [exact H|].
  destruct (scrape_microsoft_candidates _ _ _ _ _ _ _ _ H) as [Hlen Hjobs].
  split; [exact Hlen|].
  destruct (Hjobs Demo.python_intern ltac:(by left))
    as (soup & card & link & _ & _ & _ & _ & _ & Hrel).
  exact Hrel.
Defined.

(** X6, an instance: the two postings of the page of [Demo.amazon]. *)
Lemma scrape_company_fields_witness :
  demo_scrape_company Demo.amazon Demo.s0 =
    (inr [Demo.backend_intern; Demo.cloud_developer], set_ticks 3 Demo.s0) /\
  forall job, job ∈ [Demo.backend_intern; Demo.cloud_developer] ->
    company job = "Amazon" /\ location job = "US" /\
    exists t, 0 <= t < 3 /\ date_found job = Demo.clock t.
Proof.
  assert (H : demo_scrape_company Demo.amazon Demo.s0 =
              (inr [Demo.backend_intern; Demo.cloud_developer], set_ticks 3 Demo.s0))
    by (vm_compute; reflexivity).
  split; [exact H|].
  exact (proj2 (scrape_company_fields _ _ _ _ _ _ _ _ H)).
Defined.

(** X7, an instance: the first cycle over the three demo sources, of the
    types of the built-in ones, returns four postings, of at most 60. *)
Lemma scrape_all_bounded_witness :
  (demo_scrape_all Demo.self Demo.s0).1 = inr Demo.first_cycle /\
  length Demo.first_cycle <= 15 + 15 + 30.
Proof.
  split; [by rewrite demo_first_cycle|].
  exact (proj1 (scrape_all_bounded Demo.urljoin Demo.BeautifulSoup Demo.json_load
                  Demo.json_dump Demo.http Demo.clock _ _ _ _ demo_first_cycle)).
Defined.

(** X8, an instance: a cycle over [Demo.amazon] twice, with a source that
    does not answer in between.  The adapters return the two postings of the
    page twice; the cycle returns each once, in the order of the page. *)
Lemma scrape_all_complete_witness :
  (demo_scrape_all
     {| seen_file := "seen_jobs.json";
        companies := [Demo.amazon; Demo.acme; Demo.amazon] |} Demo.s0).1 =
    inr [Demo.backend_intern; Demo.cloud_developer] /\
  map title (demo_cycle_candidates [Demo.amazon; Demo.acme; Demo.amazon] 0) =
    [ "Backend Engineering Intern"; "New Grad Cloud Developer";
      "Backend Engineering Intern"; "New Grad Cloud Developer" ] /\
  [Demo.backend_intern; Demo.cloud_developer]
    `sublist_of` demo_cycle_candidates [Demo.amazon; Demo.acme; Demo.amazon] 0.
Proof.
  assert (H : (demo_scrape_all
                 {| seen_file := "seen_jobs.json";
                    companies := [Demo.amazon; Demo.acme; Demo.amazon] |} Demo.s0).1 =
              inr [Demo.backend_intern; Demo.cloud_developer])
    by (vm_compute; reflexivity).
  split; [exact H|].
  split; [vm_compute; reflexivity|].
  exact (proj1 (scrape_all_complete _ _ _ _ _ _ _ _ _ (run_result _ _ H))).
Defined.

(** X9, an instance: the first call sends one message for four postings;
    three more calls send nothing. *)
Example app_steady_state_instance :
  length (app.outbox (demo_app_check_jobs Demo.self Demo.a0).2) = 1 /\
  app.total_found (app.last_results (demo_app_check_jobs Demo.self Demo.a0).2) = 4 /\
  length (app.outbox (demo_app_scheduled 4 Demo.self Demo.a0).2) = 1 /\
  app.total_found (app.last_results (demo_app_scheduled 4 Demo.self Demo.a0).2) = 4.
Proof. repeat (apply conj; [vm_compute; reflexivity|]). vm_compute. reflexivity. Qed.

(** X10, an instance: three calls of [check_jobs] on the state whose file
    cannot be opened.  Nothing is shown or sent, and the four postings of the
    pages are in the Seen-Set. *)
Lemma unwritable_seen_file_silences_alerts_witness :
  let a' := (demo_app_scheduled 3 Demo.self Demo.a_denied).2 in
  app.last_results a' = app.initial_results /\
  app.outbox a' = [] /\
  length (demo_cycle_candidates (companies Demo.self) 0) = 4 /\
  forall job, job ∈ demo_cycle_candidates (companies Demo.self) 0 ->
    is_Some (seen_jobs (app.scraper_state a') !! get_job_id job).
Proof.
  assert (Hfile : files (app.scraper_state Demo.a_denied) !! seen_file Demo.self =
                  Some Denied) by (vm_compute; reflexivity).
  destruct (unwritable_seen_file_silences_alerts Demo.urljoin Demo.BeautifulSoup
              Demo.json_dump Demo.http Demo.clock Demo.alert_email Demo.mail_send
              Demo.self Demo.a_denied 2 Hfile) as (_ & Hresults & Houtbox & Hseen).
  cbv zeta. split; [exact Hresults|]. split; [exact Houtbox|].
  split; [vm_compute; reflexivity | exact Hseen].
Defined.


(** X12, an instance: after the first cycle on a first start the file holds
    the four postings of the pages, and no other file exists. *)
Lemma scrape_all_persists_witness :
  let s' := (demo_scrape_all Demo.self Demo.s0).2 in
  files s' !! "seen_jobs.json" = Some (Contents (Demo.json_dump (seen_jobs s'))) /\
  size (seen_jobs s') = 4 /\
  files s' !! "other.json" = None.
Proof.
  destruct (scrape_all_persists Demo.urljoin Demo.BeautifulSoup Demo.json_dump
              Demo.http Demo.clock Demo.self Demo.s0 _ _ demo_first_cycle)
    as [Hfile Hother].
  cbv zeta. split; [exact Hfile|]. split; [vm_compute; reflexivity|].
  exact (eq_trans (Hother "other.json" ltac:(discriminate)) eq_refl).
Defined.

(** X13, an instance: a cycle on a first start, then a restart with a
    decoder that reads back the file the cycle wrote. *)
Lemma restart_restores_seen_jobs_witness :
  let s' := (demo_scrape_all Demo.self Demo.s0).2 in
  size (seen_jobs s') = 4 /\
  exists scraper,
    init (Demo.json_load_among [seen_jobs s']) (set_seen_jobs ∅ s') = (inr scraper, s').
Proof.
  cbv zeta. split; [vm_compute; reflexivity|].
  destruct (proj2 (restart_restores_seen_jobs Demo.urljoin Demo.BeautifulSoup
                     (Demo.json_load_among [seen_jobs (demo_scrape_all Demo.self Demo.s0).2])
                     Demo.json_dump Demo.http Demo.clock Demo.self Demo.s0
                     (demo_scrape_all Demo.self Demo.s0).2
                     (set_seen_jobs ∅ (demo_scrape_all Demo.self Demo.s0).2)
                     Demo.first_cycle demo_first_cycle
                     ltac:(vm_compute; reflexivity)
                     (json_load_among_head _ _)
                     eq_refl) eq_refl) as (scraper & Hinit & _).
  exists scraper.
  exact (eq_trans Hinit (f_equal (pair (inr scraper)) (set_seen_jobs_back _ _))).
Defined.

(** X14, an instance: the first call of [check_jobs] on a first start
    announces the four postings of the pages to the configured recipient. *)
Lemma check_jobs_announces_witness :
  app.outbox (demo_app_check_jobs Demo.self Demo.a0).2 =
    [alert_message Demo.first_cycle "alerts@example.com"] /\
  Str.substring_of
    ("Position: Python Developer Intern" +:+ newline +:+
     "Link: https://careers.microsoft.com/job/7" +:+ newline)
    (app.body (alert_message Demo.first_cycle "alerts@example.com")).
Proof.
  destruct (check_jobs_announces Demo.urljoin Demo.BeautifulSoup Demo.json_dump
              Demo.http Demo.clock Demo.alert_email Demo.mail_send
              Demo.self Demo.a0 _ Demo.first_cycle "alerts@example.com"
              demo_first_cycle ltac:(discriminate) eq_refl eq_refl)
    as (_ & _ & Houtbox & _ & _ & Hbody).
  split; [exact Houtbox|].
  destruct (Hbody (Demo.found_at 1 Demo.python_intern)) as (pre & post & Heq);
    [apply list_elem_of_further, list_elem_of_here|].
  exists (pre +:+ "Company: Microsoft" +:+ newline),
         ("Found: 2024-05-01T09:00:01" +:+ newline +:+ post).
  rewrite Heq. rewrite !append_assoc. vm_compute. reflexivity.
Defined.

(** X15, an instance: the mail server refuses the message for the four
    postings of the first cycle; after that call and three more the postings
    are shown and counted and the outbox is empty. *)
Lemma failed_alert_is_not_retried_witness :
  let an :=
    (app_scheduled Demo.urljoin Demo.BeautifulSoup Demo.json_dump Demo.http Demo.clock
       Demo.alert_email Demo.mail_refused 4 Demo.self Demo.a0).2 in
  app.jobs (app.last_results an) = Demo.first_cycle /\
  app.total_found (app.last_results an) = 4 /\
  app.outbox an = [].
Proof.
  assert (Hmail :
    (exists e, Demo.alert_email = inl e) \/
    (exists recipient e,
        Demo.alert_email = inr recipient /\
        Demo.mail_refused
          (alert_message Demo.first_cycle recipient) = inl e))
    by (right; by exists "alerts@example.com", ConnectionError).
  pose proof (failed_alert_is_not_retried Demo.urljoin Demo.BeautifulSoup Demo.json_dump
                Demo.http Demo.clock Demo.alert_email Demo.mail_refused
                Demo.self Demo.a0 _ Demo.first_cycle 3
                demo_first_cycle ltac:(discriminate) Hmail) as H.
  cbv zeta in *. rewrite <- app_scheduled_S in H. exact H.
Defined.
